(** * Hawk React Native catcher: token codec, event pipeline and facade

    A shallow embedding of [packages/core/src/index.ts].  The JavaScript
    values the catcher touches are modelled first (JSON trees, errors,
    objects with their properties in JavaScript's order and their
    prototype, living in a store), then the effects of the
    module (the store, the calls to [fetch], the console, the global
    exception handler slot and the module variable [_instance]) as one
    state-and-exception monad, and finally the two classes themselves. *)

From Stdlib Require Import Ascii NArith.
From stdpp Require Import base strings list sorting gmap.

Set Warnings "-register-all".

(** ** JavaScript values *)

Module Js.

(** What [JSON.parse] can return.  A number is kept through the two
    observations this program can make of one: whether it is falsy
    ([0] and [-0]) and how [ToString] renders it. *)
Inductive Json : Type :=
| JNull
| JBool (b : bool)
| JNumber (is_zero : bool) (text : string)
| JString (s : string)
| JArray (items : list Json)
| JObject (props : list (string * Json)).

(** An [Error] object: [name], [message] and the engine's [stack]. *)
Record Error := mkError {
  name : string;
  message : string;
  stack : option string;
}.

(** How a call ends: with a value, or with a thrown error. *)
Inductive Completion (A : Type) : Type :=
| Normal (a : A)
| Throw (e : Error).
Arguments Normal {A} a.
Arguments Throw {A} e.

(** [new TypeError(msg)] and [new SyntaxError(msg)], as the engine throws
    them from a property read, a conversion or [JSON.parse].  The program
    catches such an error without looking into it: it stands here with
    the wording of V8 and without its stack. *)
Definition new_TypeError (msg : string) : Error := mkError "TypeError" msg None.
Definition new_SyntaxError (msg : string) : Error := mkError "SyntaxError" msg None.

(** [Error.prototype.toString]. *)
Definition Error_toString (e : Error) : string :=
  if decide (name e = "") then message e
  else if decide (message e = "") then name e
  else name e +:+ ": " +:+ message e.

(** [ToBoolean]: the falsy values are [null], [false], [0] and [''];
    [undefined] is handled where a property may be absent. *)
Definition ToBoolean (v : Json) : bool :=
  match v with
  | JNull => false
  | JBool b => b
  | JNumber z _ => negb z
  | JString s => negb (String.eqb s "")
  | JArray _ | JObject _ => true
  end.

Definition join (sep : string) (parts : list string) : string :=
  match parts with
  | [] => ""
  | p :: ps => fold_left (fun acc q => acc +:+ sep +:+ q) ps p
  end.

(** [v === '']. *)
Definition is_empty_string (v : Json) : bool :=
  match v with
  | JString s => String.eqb s ""
  | _ => false
  end.

(** *** Objects as ordered property lists

    Own enumerable string-keyed properties, one entry per key, in the
    order JavaScript lists them: the array indices first, ascending, then
    the other keys in insertion order. *)
Definition obj : Type := list (string * Json).

Fixpoint get (k : string) (o : obj) : option Json :=
  match o with
  | [] => None
  | (k', v) :: o' => if String.eqb k k' then Some v else get k o'
  end.

Fixpoint digits_value (s : string) (acc : N) : option N :=
  match s with
  | EmptyString => Some acc
  | String c s' =>
      let n := N_of_ascii c in
      if (48 <=? n)%N && (n <=? 57)%N then digits_value s' (acc * 10 + (n - 48))%N
      else None
  end.

(** An array index: a canonical numeric string (no sign, no leading
    zero) of value at most 2^32 - 2. *)
Definition array_index (k : string) : option N :=
  match k with
  | EmptyString => None
  | String c rest =>
      if (N_of_ascii c =? 48)%N && negb (String.eqb rest "") then None
      else match digits_value k 0 with
           | Some n => if (n <=? 4294967294)%N then Some n else None
           | None => None
           end
  end.

(** [goes_before k k']: a new key [k] is listed before the key [k'] that
    is already there, which is when [k] is an array index and [k'] is a
    larger one or no index at all. *)
Definition goes_before (k k' : string) : bool :=
  match array_index k, array_index k' with
  | Some n, Some n' => (n <? n')%N
  | Some _, None => true
  | None, _ => false
  end.

(** Defining or updating the own property [k]: an existing key keeps its
    place, a new array index goes to its place among the indices, any
    other new key goes last. *)
Fixpoint set (k : string) (v : Json) (o : obj) : obj :=
  match o with
  | [] => [(k, v)]
  | (k', v') :: o' =>
      if String.eqb k k' then (k', v) :: o'
      else if goes_before k k' then (k, v) :: (k', v') :: o'
      else (k', v') :: set k v o'
  end.

(** The prototype slot of an object: [Object.prototype], as [{}] and
    [JSON.parse] set it; [null]; or a value that an assignment to
    [__proto__] has put there.  A value is plain data, an object or an
    array that itself inherits from [Object.prototype]. *)
Inductive Prototype : Type :=
| ObjectPrototype
| NullPrototype
| ValuePrototype (v : Json).

(** An object: its prototype slot and its own properties. *)
Record Object := mkObject {
  prototype : Prototype;
  own : obj;
}.

(** Whether the lookup of [__proto__] along the prototype chain ends at
    the accessor of [Object.prototype]: not when the chain ends first,
    and not when an object on the way has a property of that name of its
    own. *)
Definition inherits_proto_accessor (p : Prototype) : bool :=
  match p with
  | ObjectPrototype => true
  | NullPrototype => false
  | ValuePrototype (JObject props) =>
      match get "__proto__" props with
      | Some _ => false
      | None => true
      end
  | ValuePrototype _ => true
  end.

(** The setter of that accessor: an object or [null] becomes the
    prototype, any other value is ignored. *)
Definition set_prototype (v : Json) (p : Prototype) : Prototype :=
  match v with
  | JObject _ | JArray _ => ValuePrototype v
  | JNull => NullPrototype
  | _ => p
  end.

(** The assignment [o[k] = v] on an ordinary object whose own properties
    are data properties.  An own property is overwritten.  Without one,
    writing [__proto__] runs the inherited setter when the chain leads to
    it, and the own properties stay as they are; any other write defines
    an own property, every property found along the chain being a
    writable data property. *)
Definition put (k : string) (v : Json) (o : Object) : Object :=
  match get k (own o) with
  | Some _ => mkObject (prototype o) (set k v (own o))
  | None =>
      if String.eqb k "__proto__" && inherits_proto_accessor (prototype o)
      then mkObject (set_prototype v (prototype o)) (own o)
      else mkObject (prototype o) (set k v (own o))
  end.

(** The property writes of [Object.assign(target, source)], in the
    source's order; each one is an assignment. *)
Definition assign_props (target : Object) (source : obj) : Object :=
  fold_left (fun t kv => put (fst kv) (snd kv) t) source target.

(** [ToString], as a template literal applies it.  An object is rendered
    by the [toString] it inherits, unless it has an own property of that
    name: a JSON value is never callable, and then the conversion throws
    a [TypeError].  An array joins the renderings of its items, [null]
    giving the empty string. *)
Fixpoint ToString (v : Json) : Completion string :=
  match v with
  | JNull => Normal "null"
  | JBool true => Normal "true"
  | JBool false => Normal "false"
  | JNumber _ text => Normal text
  | JString s => Normal s
  | JArray items =>
      (fix items_joined (first : bool) (l : list Json) : Completion string :=
         match l with
         | [] => Normal ""
         | i :: l' =>
             match (match i with JNull => Normal "" | _ => ToString i end) with
             | Throw e => Throw e
             | Normal s =>
                 match items_joined false l' with
                 | Throw e => Throw e
                 | Normal rest => Normal ((if first then "" else ",") +:+ s +:+ rest)
                 end
             end
         end) true items
  | JObject props =>
      match get "toString" props with
      | Some _ => Throw (new_TypeError "Cannot convert object to primitive value")
      | None => Normal "[object Object]"
      end
  end.

(** [value.key] on a parsed JSON value, for a key that no prototype
    defines: reading a property of [null] throws a [TypeError];
    primitives and arrays have no such property, so the read gives
    [undefined] ([None]). *)
Definition get_property (value : Json) (key : string) : Completion (option Json) :=
  match value with
  | JNull =>
      Throw (new_TypeError ("Cannot read properties of null (reading '" +:+ key +:+ "')"))
  | JObject props => Normal (get key props)
  | _ => Normal None
  end.

End Js.

Import Js.

(** ** Data the catcher builds and keeps *)

(** A reference to an object of the store. *)
Definition loc : Type := nat.

(** [EventData<NodeJSAddons>]: the payload of one event.  Only [title] is
    always there; the global handler fills in nothing else. *)
Module EventData.
Record t := mk {
  title : string;
  type : option string;
  backtrace : option (list Json);
  user : option Json;
  context : option obj;
  catcherVersion : option string;
}.
End EventData.

(** [HawkEvent]: the envelope handed to [sendErrorFormatted]. *)
Module HawkEvent.
Record t := mk {
  token : string;
  catcherType : string;
  payload : EventData.t;
}.
End HawkEvent.

(** Modelled from the spec: the settings type [HawkNodeJSInitialSettings]
    is declared in [../types], which is not part of the sources; its
    fields are the recognised options of the construction input.  Every
    field may be left out by a caller, the token included.  A hook is a
    function of the payload that returns a payload or throws. *)
Module HawkNodeJSInitialSettings.
Record t := mk {
  token : option string;
  collectorEndpoint : option string;
  context : option loc;
  beforeSend : option (EventData.t → Completion EventData.t);
  disableGlobalErrorsHandling : option bool;
}.
End HawkNodeJSInitialSettings.

(** The private fields of a [Catcher] instance; [This.token this] reads
    [this.token]. *)
Module This.
Record Catcher := mk {
  token : string;
  collectorEndpoint : string;
  context : option loc;
  beforeSend : option (EventData.t → Completion EventData.t);
}.
End This.

(** ** The world the module runs in *)

(** One call to [fetch]. *)
Record Request := mkRequest {
  url : string;
  method : string;
  headers : list (string * string);
  body : string;
}.

Inductive ConsoleEntry : Type :=
| console_log (label : string) (error : Error) (error_stack : option string) (isFatal : bool)
| console_error (line : string).

(** The handler registered with [setJSExceptionHandler]: the arrow function
    of [initGlobalHandlers] closes over [this] only, so the closure is kept
    as that instance, with the [allowedInDevMode] flag of the call. *)
Record JSExceptionHandler := mkHandler {
  handler_this : This.Catcher;
  allowedInDevMode : bool;
}.

(** The store holds the own properties of every object, by reference,
    and the prototype slot of the objects whose prototype is not
    [Object.prototype]. *)
Record World := mkWorld {
  heap : list obj;
  fetched : list Request;
  console : list ConsoleEntry;
  jsExceptionHandler : option JSExceptionHandler;
  _instance : option This.Catcher;
  prototypes : gmap loc Prototype;
}.

(** Nothing allocated, sent, logged, installed or initialised. *)
Definition fresh_world : World := mkWorld [] [] [] None None ∅.

(** ** Statements: state passing with exceptions *)

Definition M (A : Type) : Type := World → Completion A * World.

#[global] Instance M_ret : MRet M := λ A a w, (Normal a, w).
#[global] Instance M_bind : MBind M := λ A B f m w,
  match m w with
  | (Normal a, w') => f a w'
  | (Throw e, w') => (Throw e, w')
  end.

Definition throw {A} (e : Error) : M A := λ w, (Throw e, w).

(** [try { body } catch (error) { handler(error) }]. *)
Definition try_catch {A} (body : M A) (handler : Error → M A) : M A := λ w,
  match body w with
  | (Normal a, w') => (Normal a, w')
  | (Throw e, w') => handler e w'
  end.

(** A call into a function that touches no state. *)
Definition call {A} (c : Completion A) : M A := λ w, (c, w).

Definition read {A} (f : World → A) : M A := λ w, (Normal (f w), w).
Definition update (f : World → World) : M unit := λ w, (Normal (), f w).

Definition with_heap (h : list obj) (w : World) : World :=
  mkWorld h (fetched w) (console w) (jsExceptionHandler w) (_instance w) (prototypes w).
Definition with_fetched (r : list Request) (w : World) : World :=
  mkWorld (heap w) r (console w) (jsExceptionHandler w) (_instance w) (prototypes w).
Definition with_console (c : list ConsoleEntry) (w : World) : World :=
  mkWorld (heap w) (fetched w) c (jsExceptionHandler w) (_instance w) (prototypes w).
Definition with_jsExceptionHandler (h : option JSExceptionHandler) (w : World) : World :=
  mkWorld (heap w) (fetched w) (console w) h (_instance w) (prototypes w).
Definition with_instance (i : option This.Catcher) (w : World) : World :=
  mkWorld (heap w) (fetched w) (console w) (jsExceptionHandler w) i (prototypes w).
Definition with_prototypes (p : gmap loc Prototype) (w : World) : World :=
  mkWorld (heap w) (fetched w) (console w) (jsExceptionHandler w) (_instance w) p.
Definition with_store (s : list obj * gmap loc Prototype) (w : World) : World :=
  with_prototypes s.2 (with_heap s.1 w).

(** Recording the prototype of the object at [l]. *)
Definition store_prototype (l : loc) (p : Prototype)
    (ps : gmap loc Prototype) : gmap loc Prototype :=
  match p with
  | ObjectPrototype => delete l ps
  | _ => <[l := p]> ps
  end.

(** [{}]: a new empty object, at the next free reference, with
    [Object.prototype] as prototype. *)
Definition new_object : M loc := λ w,
  let l := length (heap w) in
  (Normal l, with_prototypes (store_prototype l ObjectPrototype (prototypes w))
               (with_heap (heap w ++ [[]]) w)).

(** The properties of the object at [l]; a reference that was never
    allocated has none. *)
Definition properties (h : list obj) (l : loc) : obj := default [] (h !! l).

(** The object at [l], with its prototype. *)
Definition object_at (w : World) (l : loc) : Object :=
  mkObject (default ObjectPrototype (prototypes w !! l)) (properties (heap w) l).

(** [Object.assign(target, source)]: the source's properties are read,
    then written to the target one by one. *)
Definition Object_assign (target source : loc) : M unit :=
  update (λ w,
    let assigned := assign_props (object_at w target) (properties (heap w) source) in
    with_prototypes (store_prototype target (prototype assigned) (prototypes w))
      (with_heap (<[target := own assigned]> (heap w)) w)).

(** [fetch(url, init)]: the request leaves; its promise settles later. *)
Definition fetch (r : Request) : M unit :=
  update (λ w, with_fetched (fetched w ++ [r]) w).

Definition console_write (e : ConsoleEntry) : M unit :=
  update (λ w, with_console (console w ++ [e]) w).

(** [setJSExceptionHandler(handler, allowedInDevMode)] of
    react-native-exception-handler: the handler replaces the one in place. *)
Definition setJSExceptionHandler (this : This.Catcher) (allowed : bool) : M unit :=
  update (with_jsExceptionHandler (Some (mkHandler this allowed))).

(** ** What the host supplies *)

(** The built-ins the catcher calls.  Decoding and parsing may throw;
    whatever they throw is an [Error].
    - [Buffer_from_base64_toString_utf8 t] is
      [Buffer.from(t, 'base64').toString('utf-8')];
    - [JSON_parse] and [JSON_stringify] are the methods of [JSON];
    - [Error_stack msg] is the stack text the engine gives an error this
      module creates with [new Error(msg)].  The module creates its four
      errors with four messages, so the message tells the place apart;
      the frames of the caller are part of the text, which is why it is
      left to the host. *)
Class Host := {
  Buffer_from_base64_toString_utf8 : string → Completion string;
  JSON_parse : string → Completion Json;
  JSON_stringify : HawkEvent.t → string;
  Error_stack : string → string;
}.

(** [new Error(msg)]: the engine attaches the stack. *)
Definition new_Error `{Host} (msg : string) : Error :=
  mkError "Error" msg (Some (Error_stack msg)).

(** Modelled from the spec: the class [EventPayload] of [./modules/event]
    is not part of the sources.  Built from an error, it gives the title,
    the type and the backtrace frames of the event; none of the three
    fails (no stack gives an empty sequence of frames). *)
Class EventPayload := {
  getTitle : Error → string;
  getType : Error → string;
  getBacktrace : Error → list Json;
}.

(** The settlement of a [fetch] promise: a response (of any status), or a
    rejection. *)
Inductive FetchOutcome : Type :=
| fetch_resolved (status : nat)
| fetch_rejected (reason : Error).

Inductive PromiseState : Type :=
| fulfilled
| rejected (reason : Error).

(** [promise.catch(onRejected)], once [promise] has settled: a resolved
    promise passes through, a rejection runs the callback, and the derived
    promise is rejected only if the callback itself throws. *)
Definition promise_catch (outcome : FetchOutcome) (onRejected : Error → M unit)
    (w : World) : PromiseState * World :=
  match outcome with
  | fetch_resolved _ => (fulfilled, w)
  | fetch_rejected err =>
      match onRejected err w with
      | (Normal _, w') => (fulfilled, w')
      | (Throw e, w') => (rejected e, w')
      end
  end.

(** JavaScript truthiness of a [string | undefined], and [a || b] on it. *)
Definition truthy (s : option string) : bool :=
  match s with
  | Some s => negb (String.eqb s "")
  | None => false
  end.

Definition or_else (a : option string) (b : string) : string :=
  match a with
  | Some s => if truthy a then s else b
  | None => b
  end.

(** [a || b] as it is evaluated: [b] only when [a] is falsy. *)
Definition or_else_eval (a : option string) (b : M string) : M string :=
  match a with
  | Some s => if truthy a then mret s else b
  | None => b
  end.

(** ** class Catcher *)

Module Catcher.
Section methods.
Context `{Host} `{EventPayload}.

Definition type : string := "errors/react-native".

(** Catcher package version. *)
Definition getVersion : string := "1.0.0".

(** Returns integration id from integration token.  The method reads
    [this.token] before the instance is complete, so the token is its
    argument here. *)
Definition getIntegrationId (token : string) : M Json :=
  decodedIntegrationTokenAsString ← call (Buffer_from_base64_toString_utf8 token);
  decodedIntegrationToken ← call (JSON_parse decodedIntegrationTokenAsString);
  integrationId ← call (get_property decodedIntegrationToken "integrationId");
  match integrationId with
  | None => throw (new_Error "Invalid integration token. There is no integration ID.")
  | Some integrationId =>
      if negb (ToBoolean integrationId) || is_empty_string integrationId
      then throw (new_Error "Invalid integration token. There is no integration ID.")
      else mret integrationId
  end.

(** Sends formatted event to the Collector: the synchronous part of the
    [async] method, up to the call to [fetch]. *)
Definition sendErrorFormatted (this : This.Catcher) (eventFormatted : HawkEvent.t) : M unit :=
  fetch {|
    url := This.collectorEndpoint this;
    method := "POST";
    headers := [("Content-Type", "application/json")];
    body := JSON_stringify eventFormatted;
  |}.

(** The rest of [sendErrorFormatted]: what its [.catch] does once the
    request has settled, and the state of the promise it returns. *)
Definition sendErrorFormatted_settled (outcome : FetchOutcome) : World → PromiseState * World :=
  promise_catch outcome (λ err,
    console_write (console_error ("[Hawk] Cannot send an event because of " +:+ Error_toString err))).

(** The arrow function [initGlobalHandlers] registers. *)
Definition onJSException (this : This.Catcher) (error : Error) (isFatal : bool) : M unit :=
  console_write (console_log "Error" error (stack error) isFatal);;
  sendErrorFormatted this {|
    HawkEvent.catcherType := type;
    HawkEvent.payload := {|
      EventData.title := name error;
      EventData.type := None;
      EventData.backtrace := None;
      EventData.user := None;
      EventData.context := None;
      EventData.catcherVersion := None;
    |};
    HawkEvent.token := This.token this;
  |}.

(** Define own error handlers. *)
Definition initGlobalHandlers (this : This.Catcher) : M unit :=
  setJSExceptionHandler this true.

(** Compose User object. *)
Definition getUser (user : option Json) : option Json := user.

(** Compose context object. *)
Definition getContext (this : This.Catcher) (context : option loc) : M loc :=
  contextMerged ← new_object;
  match This.context this with
  | Some this_context => Object_assign contextMerged this_context
  | None => mret ()
  end;;
  match context with
  | Some context => Object_assign contextMerged context
  | None => mret ()
  end;;
  mret contextMerged.

(** The payload [formatAndSend] composes before the hook sees it. *)
Definition composed (err : Error) (user : option Json) (context : obj) : EventData.t := {|
  EventData.title := getTitle err;
  EventData.type := Some (getType err);
  EventData.backtrace := Some (getBacktrace err);
  EventData.user := getUser user;
  EventData.context := Some context;
  EventData.catcherVersion := Some getVersion;
|}.

(** Format and send an error.  The payload holds the merged context by
    reference; nothing else can reach that new object, so its own
    properties, which are what serialisation looks at, are read out when
    the payload is built. *)
Definition formatAndSend (this : This.Catcher) (err : Error)
    (context : option loc) (user : option Json) : M unit :=
  contextMerged ← getContext this context;
  contextProps ← read (λ w, properties (heap w) contextMerged);
  let payload := composed err user contextProps in
  payload ← match This.beforeSend this with
            | Some beforeSend => call (beforeSend payload)
            | None => mret payload
            end;
  sendErrorFormatted this {|
    HawkEvent.token := This.token this;
    HawkEvent.catcherType := type;
    HawkEvent.payload := payload;
  |}.

(** This method prepares and sends an Error to Hawk. *)
Definition send (this : This.Catcher) (error : Error)
    (context : option loc) (user : option Json) : M unit :=
  formatAndSend this error context user.

(** Send test event from client. *)
Definition test (this : This.Catcher) : M unit :=
  let fakeEvent := new_Error "Hawk NodeJS Catcher test message" in
  send this fakeEvent None None.

(** [new Catcher(settings)]. *)
Definition constructor (settings : HawkNodeJSInitialSettings.t + string) : M This.Catcher :=
  let settings :=
    match settings with
    | inr token => HawkNodeJSInitialSettings.mk (Some token) None None None None
    | inl settings => settings
    end in
  let this_token := HawkNodeJSInitialSettings.token settings in
  let this_context := HawkNodeJSInitialSettings.context settings in
  let this_beforeSend := HawkNodeJSInitialSettings.beforeSend settings in
  match this_token with
  | Some token =>
      if negb (truthy this_token)
      then throw (new_Error "Integration Token is missed. You can get it on https://hawk.so at Project Settings.")
      else
        try_catch
          (integrationId ← getIntegrationId token;
           collectorEndpoint ←
             or_else_eval (HawkNodeJSInitialSettings.collectorEndpoint settings)
               (id ← call (ToString integrationId);
                mret ("https://" +:+ id +:+ ".k1.hawk.so/"));
           let this := {|
             This.token := token;
             This.collectorEndpoint := collectorEndpoint;
             This.context := this_context;
             This.beforeSend := this_beforeSend;
           |} in
           match HawkNodeJSInitialSettings.disableGlobalErrorsHandling settings with
           | Some true => mret ()
           | Some false | None => initGlobalHandlers this
           end;;
           mret this)
          (λ error, throw (new_Error "Invalid integration token"))
  | None =>
      throw (new_Error "Integration Token is missed. You can get it on https://hawk.so at Project Settings.")
  end.

End methods.
End Catcher.

(** ** Wrapper for Hawk NodeJS Catcher *)

Module HawkCatcher.
Section methods.
Context `{Host} `{EventPayload}.

(** Wrapper for HawkCatcher constructor. *)
Definition init (settings : HawkNodeJSInitialSettings.t + string) : M unit :=
  instance ← Catcher.constructor settings;
  update (with_instance (Some instance)).

(** Wrapper for HawkCatcher.send() method: if instance is undefined then
    do nothing. *)
Definition send (error : Error) (context : option loc) (user : option Json) : M unit :=
  instance ← read _instance;
  match instance with
  | Some instance => Catcher.send instance error context user
  | None => mret ()
  end.

End methods.
End HawkCatcher.

(** The host runtime reporting an uncaught exception: it calls the handler
    in place, if there is one. *)
Definition uncaught_exception `{Host} (error : Error) (isFatal : bool) : M unit :=
  handler ← read jsExceptionHandler;
  match handler with
  | Some handler => Catcher.onJSException (handler_this handler) error isFatal
  | None => mret ()
  end.

(** ** A reference host

    An executable [Host] on which the model runs on real tokens: the
    forgiving base64 decoder of Node's [Buffer], and a JSON reader and
    writer.  Strings are held as their UTF-8 bytes.  A number literal is
    rendered as it was written, which is what [ToString] gives for the
    integers of the safe range, and is zero when all its digits are. *)

Module Reference.

Definition dquote : ascii := ascii_of_nat 34.
Definition backslash : ascii := ascii_of_nat 92.
Definition code (c : ascii) : N := N_of_ascii c.
Definition between (lo hi : N) (c : ascii) : bool :=
  (lo <=? code c)%N && (code c <=? hi)%N.
Definition char (n : N) : string := String (ascii_of_N n) "".

(** *** base64 *)

(** The six bits a character stands for, in the standard and the URL-safe
    alphabet; [None] for any other character. *)
Definition unbase64 (c : ascii) : option N :=
  let n := code c in
  if between 65 90 c then Some (n - 65)%N
  else if between 97 122 c then Some (n - 71)%N
  else if between 48 57 c then Some (n + 4)%N
  else if (n =? 43)%N || (n =? 45)%N then Some 62%N
  else if (n =? 47)%N || (n =? 95)%N then Some 63%N
  else None.

(** Decoding stops at the first [=]; characters outside the alphabet are
    skipped. *)
Fixpoint sextets (s : string) : list N :=
  match s with
  | EmptyString => []
  | String c s' =>
      if (code c =? 61)%N then []
      else match unbase64 c with
           | Some n => n :: sextets s'
           | None => sextets s'
           end
  end.

Fixpoint octets (l : list N) : string :=
  match l with
  | a :: b :: c :: d :: l' =>
      char (a * 4 + b / 16) +:+ char (b mod 16 * 16 + c / 4) +:+ char (c mod 4 * 64 + d)
        +:+ octets l'
  | [a; b; c] => char (a * 4 + b / 16) +:+ char (b mod 16 * 16 + c / 4)
  | [a; b] => char (a * 4 + b / 16)
  | _ => ""
  end%N.

Definition base64_decode (s : string) : string := octets (sextets s).

(** *** Reading JSON *)

Definition is_ws (c : ascii) : bool :=
  let n := code c in ((n =? 32) || (n =? 9) || (n =? 10) || (n =? 13))%N.
Definition is_digit (c : ascii) : bool := between 48 57 c.

Fixpoint skip_ws (s : string) : string :=
  match s with
  | String c s' => if is_ws c then skip_ws s' else s
  | EmptyString => s
  end.

Fixpoint strip_prefix (p s : string) : option string :=
  match p, s with
  | EmptyString, _ => Some s
  | String a p', String b s' => if Ascii.eqb a b then strip_prefix p' s' else None
  | String _ _, EmptyString => None
  end.

Fixpoint span_digits (s : string) : string * string :=
  match s with
  | String c s' =>
      if is_digit c then let (d, r) := span_digits s' in (String c d, r) else ("", s)
  | EmptyString => ("", s)
  end.

Fixpoint all_zero (s : string) : bool :=
  match s with
  | String c s' => (code c =? 48)%N && all_zero s'
  | EmptyString => true
  end.

Definition hex_digit (c : ascii) : option N :=
  let n := code c in
  if between 48 57 c then Some (n - 48)%N
  else if between 65 70 c then Some (n - 55)%N
  else if between 97 102 c then Some (n - 87)%N
  else None.

Definition hex4 (s : string) : option (N * string) :=
  match s with
  | String a (String b (String c (String d r))) =>
      match hex_digit a, hex_digit b, hex_digit c, hex_digit d with
      | Some a, Some b, Some c, Some d => Some (((a * 16 + b) * 16 + c) * 16 + d, r)%N
      | _, _, _, _ => None
      end
  | _ => None
  end.

Definition utf8 (cp : N) : string :=
  (if cp <? 128 then char cp
   else if cp <? 2048 then char (192 + cp / 64) +:+ char (128 + cp mod 64)
   else if cp <? 65536 then
     char (224 + cp / 4096) +:+ char (128 + cp / 64 mod 64) +:+ char (128 + cp mod 64)
   else
     char (240 + cp / 262144) +:+ char (128 + cp / 4096 mod 64)
       +:+ char (128 + cp / 64 mod 64) +:+ char (128 + cp mod 64))%N.

(** A [\u] escape, already past the [\u]: four hex digits, joined with a
    following low surrogate when they form a pair. *)
Definition unicode_escape (s : string) : option (string * string) :=
  match hex4 s with
  | Some (hi, r) =>
      let alone := Some (utf8 hi, r) in
      if (55296 <=? hi)%N && (hi <=? 56319)%N then
        match r with
        | String b (String u r') =>
            if Ascii.eqb b backslash && (code u =? 117)%N then
              match hex4 r' with
              | Some (lo, r'') =>
                  if (56320 <=? lo)%N && (lo <=? 57343)%N
                  then Some (utf8 (65536 + (hi - 55296) * 1024 + (lo - 56320))%N, r'')
                  else alone
              | None => alone
              end
            else alone
        | _ => alone
        end
      else alone
  | None => None
  end.

(** The characters of a string literal after its opening quote, and what
    follows the closing quote. *)
Fixpoint string_body (fuel : nat) (s : string) : option (string * string) :=
  match fuel, s with
  | S fuel, String c s' =>
      if Ascii.eqb c dquote then Some ("", s')
      else if Ascii.eqb c backslash then
        match s' with
        | String e s'' =>
            let simple (n : N) :=
              '(t, r) ← string_body fuel s''; Some (char n +:+ t, r) in
            match code e with
            | 34 => simple 34 | 92 => simple 92 | 47 => simple 47
            | 98 => simple 8 | 102 => simple 12 | 110 => simple 10
            | 114 => simple 13 | 116 => simple 9
            | 117 =>
                '(u, r) ← unicode_escape s'';
                '(t, r') ← string_body fuel r;
                Some (u +:+ t, r')
            | _ => None
            end%N
        | EmptyString => None
        end
      else if (code c <? 32)%N then None
      else '(t, r) ← string_body fuel s'; Some (String c t, r)
  | _, _ => None
  end.

(** A number, from its first character: [-]? int frac? exp?. *)
Definition number (s : string) : option (Json * string) :=
  let (sign, s1) :=
    match s with
    | String c s' => if (code c =? 45)%N then ("-", s') else ("", s)
    | EmptyString => ("", s)
    end in
  let (int, s2) := span_digits s1 in
  match int with
  | EmptyString => None
  | String d ds =>
      if (code d =? 48)%N && negb (String.eqb ds "") then None
      else
        let frac :=
          match s2 with
          | String c s' =>
              if (code c =? 46)%N then
                let (f, r) := span_digits s' in
                if String.eqb f "" then None else Some (Some f, r)
              else Some (None, s2)
          | EmptyString => Some (None, s2)
          end in
        '(frac, s3) ← frac;
        let exp :=
          match s3 with
          | String c s' =>
              if (code c =? 101)%N || (code c =? 69)%N then
                let (esign, s'') :=
                  match s' with
                  | String g r =>
                      if (code g =? 43)%N || (code g =? 45)%N then (String g "", r) else ("", s')
                  | EmptyString => ("", s')
                  end in
                let (e, r) := span_digits s'' in
                if String.eqb e "" then None else Some (Some (String c esign +:+ e), r)
              else Some (None, s3)
          | EmptyString => Some (None, s3)
          end in
        '(exp, s4) ← exp;
        let zero := all_zero int && all_zero (default "" frac) in
        let text :=
          match frac, exp with
          | None, None => if zero then "0" else sign +:+ int
          | _, _ => sign +:+ int +:+ from_option (λ f, "." +:+ f) "" frac +:+ default "" exp
          end in
        Some (JNumber zero text, s4)
  end.

Fixpoint value (fuel : nat) (s : string) : option (Json * string) :=
  match fuel with
  | O => None
  | S fuel =>
      match skip_ws s with
      | EmptyString => None
      | String c s' as s0 =>
          match code c with
          | 123 =>
              match skip_ws s' with
              | String c' r => if (code c' =? 125)%N then Some (JObject [], r)
                               else '(o, r) ← members fuel [] s'; Some (JObject o, r)
              | EmptyString => None
              end
          | 91 =>
              match skip_ws s' with
              | String c' r => if (code c' =? 93)%N then Some (JArray [], r)
                               else '(l, r) ← elements fuel s'; Some (JArray l, r)
              | EmptyString => None
              end
          | 34 => '(t, r) ← string_body (String.length s') s'; Some (JString t, r)
          | 110 => r ← strip_prefix "null" s0; Some (JNull, r)
          | 116 => r ← strip_prefix "true" s0; Some (JBool true, r)
          | 102 => r ← strip_prefix "false" s0; Some (JBool false, r)
          | _ => number s0
          end%N
      end
  end
with elements (fuel : nat) (s : string) : option (list Json * string) :=
  match fuel with
  | O => None
  | S fuel =>
      '(v, r) ← value fuel s;
      match skip_ws r with
      | String c r' =>
          if (code c =? 93)%N then Some ([v], r')
          else if (code c =? 44)%N then '(l, r'') ← elements fuel r'; Some (v :: l, r'')
          else None
      | EmptyString => None
      end
  end
with members (fuel : nat) (acc : obj) (s : string) : option (obj * string) :=
  match fuel with
  | O => None
  | S fuel =>
      match skip_ws s with
      | String q s' =>
          if Ascii.eqb q dquote then
            '(k, r) ← string_body (String.length s') s';
            match skip_ws r with
            | String colon r' =>
                if (code colon =? 58)%N then
                  '(v, r'') ← value fuel r';
                  let acc := Js.set k v acc in
                  match skip_ws r'' with
                  | String c r3 =>
                      if (code c =? 125)%N then Some (acc, r3)
                      else if (code c =? 44)%N then members fuel acc r3
                      else None
                  | EmptyString => None
                  end
                else None
            | EmptyString => None
            end
          else None
      | EmptyString => None
      end
  end.

Definition parse (text : string) : Completion Json :=
  match value (2 * String.length text + 2) text with
  | Some (v, r) =>
      if String.eqb (skip_ws r) "" then Normal v
      else Throw (new_SyntaxError "Unexpected non-whitespace character after JSON")
  | None => Throw (new_SyntaxError "Unexpected token in JSON")
  end.

(** *** Writing JSON *)

Definition hex_char (n : N) : string :=
  char (if (n <? 10)%N then n + 48 else n + 87)%N.

Fixpoint quote_body (s : string) : string :=
  match s with
  | EmptyString => ""
  | String c s' =>
      let n := code c in
      (if Ascii.eqb c dquote || Ascii.eqb c backslash then String backslash (String c "")
       else if (n =? 8)%N then "\b" else if (n =? 12)%N then "\f"
       else if (n =? 10)%N then "\n" else if (n =? 13)%N then "\r"
       else if (n =? 9)%N then "\t"
       else if (n <? 32)%N then "\u00" +:+ hex_char (n / 16) +:+ hex_char (n mod 16)
       else String c "") +:+ quote_body s'
  end.

Definition quote (s : string) : string :=
  String dquote (quote_body s) +:+ String dquote "".

Fixpoint write (v : Json) : string :=
  match v with
  | JNull => "null"
  | JBool true => "true"
  | JBool false => "false"
  | JNumber _ text => text
  | JString s => quote s
  | JArray items => "[" +:+ join "," (map write items) +:+ "]"
  | JObject props =>
      "{" +:+ join "," (map (λ kv, quote (fst kv) +:+ ":" +:+ write (snd kv)) props) +:+ "}"
  end.

(** A property whose value is [undefined] is left out. *)
Definition member (k : string) (v : option Json) : list (string * Json) :=
  match v with
  | Some v => [(k, v)]
  | None => []
  end.

Definition payload_json (p : EventData.t) : Json :=
  JObject (
    [("title", JString (EventData.title p))]
    ++ member "type" (JString <$> EventData.type p)
    ++ member "backtrace" (JArray <$> EventData.backtrace p)
    ++ member "user" (EventData.user p)
    ++ member "context" (JObject <$> EventData.context p)
    ++ member "catcherVersion" (JString <$> EventData.catcherVersion p)).

Definition stringify (e : HawkEvent.t) : string :=
  write (JObject [
    ("token", JString (HawkEvent.token e));
    ("catcherType", JString (HawkEvent.catcherType e));
    ("payload", payload_json (HawkEvent.payload e))]).

(** The stack of a new error, in the layout of V8: the header, then one
    frame that stands for the frames of the actual call. *)
Definition stack (msg : string) : string :=
  "Error: " +:+ msg +:+ char 10 +:+ "    at <anonymous>".

(** The lines of a stack text. *)
Fixpoint lines (s : string) : list string :=
  match s with
  | EmptyString => [""]
  | String c s' =>
      if (code c =? 10)%N then "" :: lines s'
      else match lines s' with
           | l :: ls => String c l :: ls
           | [] => [String c ""]
           end
  end.

End Reference.

#[global] Instance reference_host : Host := {|
  Buffer_from_base64_toString_utf8 := λ t, Normal (Reference.base64_decode t);
  JSON_parse := Reference.parse;
  JSON_stringify := Reference.stringify;
  Error_stack := Reference.stack;
|}.

(** Modelled from the spec: an [EventPayload] to run examples with.  The
    title is the error's message, the type its name, and the backtrace has
    one frame for each line of the stack, none when there is no stack. *)
#[global] Instance reference_event_payload : EventPayload := {|
  getTitle := message;
  getType := name;
  getBacktrace := λ e,
    match stack e with
    | Some s => JString <$> Reference.lines s
    | None => []
    end;
|}.

(** ** Vocabulary of the specification *)

(** The two construction errors, as the caller sees them. *)
Definition MissingTokenError `{Host} : Error :=
  new_Error "Integration Token is missed. You can get it on https://hawk.so at Project Settings.".
Definition InvalidTokenError `{Host} : Error := new_Error "Invalid integration token".

(** The token a construction input carries, in either form. *)
Definition token_of (settings : HawkNodeJSInitialSettings.t + string) : option string :=
  match settings with
  | inl settings => HawkNodeJSInitialSettings.token settings
  | inr token => Some token
  end.

(** The endpoint override of a construction input; the string form has
    none. *)
Definition override_of (settings : HawkNodeJSInitialSettings.t + string) : option string :=
  match settings with
  | inl settings => HawkNodeJSInitialSettings.collectorEndpoint settings
  | inr _ => None
  end.

Definition context_of (settings : HawkNodeJSInitialSettings.t + string) : option loc :=
  match settings with
  | inl settings => HawkNodeJSInitialSettings.context settings
  | inr _ => None
  end.

Definition beforeSend_of (settings : HawkNodeJSInitialSettings.t + string) :
    option (EventData.t → Completion EventData.t) :=
  match settings with
  | inl settings => HawkNodeJSInitialSettings.beforeSend settings
  | inr _ => None
  end.

(** Global handling is on unless the settings switch it off. *)
Definition globalHandlingEnabled (settings : HawkNodeJSInitialSettings.t + string) : bool :=
  match settings with
  | inl settings =>
      match HawkNodeJSInitialSettings.disableGlobalErrorsHandling settings with
      | Some true => false
      | _ => true
      end
  | inr _ => true
  end.

(** The endpoint derived from an integration id. *)
Definition derived_endpoint (integrationId : string) : string :=
  "https://" +:+ integrationId +:+ ".k1.hawk.so/".

(** A valid token: the base64 text (hence not empty) of a JSON object
    whose [integrationId] is the non-empty string [id]. *)
Definition valid_token `{Host} (token id : string) : Prop :=
  token ≠ "" ∧ id ≠ "" ∧
  ∃ text props,
    Buffer_from_base64_toString_utf8 token = Normal text ∧
    JSON_parse text = Normal (JObject props) ∧
    Js.get "integrationId" props = Some (JString id).

(** A parsed value with no non-empty [integrationId]: reading the property
    fails ([null]), or gives [undefined] or a falsy value. *)
Definition lacks_integrationId (value : Json) : Prop :=
  match get_property value "integrationId" with
  | Throw _ | Normal None => True
  | Normal (Some id) => ToBoolean id = false
  end.

(** The tokens the codec turns down: decoding throws, the decoded text
    is not JSON, or the parsed value has no non-empty [integrationId].
    Whether a token is well-formed base64 plays no part: a decoder that
    skips what it does not know never throws. *)
Inductive rejected_by_codec `{Host} (token : string) : Prop :=
| decoding_throws (e : Error) :
    Buffer_from_base64_toString_utf8 token = Throw e →
    rejected_by_codec token
| not_json (text : string) (e : Error) :
    Buffer_from_base64_toString_utf8 token = Normal text →
    JSON_parse text = Throw e →
    rejected_by_codec token
| no_integrationId (text : string) (value : Json) :
    Buffer_from_base64_toString_utf8 token = Normal text →
    JSON_parse text = Normal value →
    lacks_integrationId value →
    rejected_by_codec token.

(** The context merge in the specification's words: every key of the call
    context with the call's value, and the other keys of the default
    context with theirs. *)
Definition merged_lookup (defaultContext callContext : obj) (k : string) : option Json :=
  match Js.get k callContext with
  | Some v => Some v
  | None => Js.get k defaultContext
  end.

(** A reference the program holds points at an allocated object. *)
Definition allocated (w : World) (l : option loc) : Prop :=
  match l with
  | Some l => l < length (heap w)
  | None => True
  end.

(** The properties behind an optional reference, none when it is absent. *)
Definition properties_of (w : World) (l : option loc) : obj :=
  match l with
  | Some l => properties (heap w) l
  | None => []
  end.

(** The merged context one call of [send] puts in its payload: the
    properties of the object [getContext] returns. *)
Definition merged_context `{Host} `{EventPayload} (this : This.Catcher)
    (context : option loc) (w : World) : obj :=
  match Catcher.getContext this context w with
  | (Normal contextMerged, w') => properties (heap w') contextMerged
  | (Throw _, _) => []
  end.

(** The instance a successful construction builds from its input, for the
    integration id its token decodes to. *)
Definition instance_for (settings : HawkNodeJSInitialSettings.t + string)
    (token id : string) : This.Catcher := {|
  This.token := token;
  This.collectorEndpoint := or_else (override_of settings) (derived_endpoint id);
  This.context := context_of settings;
  This.beforeSend := beforeSend_of settings;
|}.

(** The world after that construction: the handler is in place unless
    global handling was switched off. *)
Definition constructed_world (settings : HawkNodeJSInitialSettings.t + string)
    (this : This.Catcher) (w : World) : World :=
  if globalHandlingEnabled settings
  then with_jsExceptionHandler (Some (mkHandler this true)) w
  else w.

(** The envelope request [sendErrorFormatted] issues for a payload. *)
Definition request_for `{Host} (this : This.Catcher) (payload : EventData.t) : Request := {|
  url := This.collectorEndpoint this;
  method := "POST";
  headers := [("Content-Type", "application/json")];
  body := JSON_stringify {|
    HawkEvent.token := This.token this;
    HawkEvent.catcherType := Catcher.type;
    HawkEvent.payload := payload;
  |};
|}.

(** One call of the facade's [send], as a caller makes it. *)
Record SendCall := mkSendCall {
  call_error : Error;
  call_context : option loc;
  call_user : option Json;
}.

(** A caller making the calls in turn, going on after one that throws. *)
Fixpoint facade_sends `{Host} `{EventPayload} (calls : list SendCall) (w : World) : World :=
  match calls with
  | [] => w
  | c :: calls =>
      facade_sends calls
        (snd (HawkCatcher.send (call_error c) (call_context c) (call_user c) w))
  end.

(** Objects have one entry for each key. *)
Definition unique_keys (o : obj) : Prop := NoDup o.*1.

(** [merge(defaultContext, callContext)] as a function of the two
    mappings: [getContext] run on an instance and in a store that hold
    them, and the properties of the object it returns. *)
Definition merge (defaultContext callContext : option obj) : obj :=
  let store := option_list defaultContext ++ option_list callContext in
  let this := {|
    This.token := "";
    This.collectorEndpoint := "";
    This.context := (λ _, 0) <$> defaultContext;
    This.beforeSend := None;
  |} in
  let context := (λ _, length (option_list defaultContext)) <$> callContext in
  let '(_, w) := Catcher.getContext this context (with_heap store fresh_world) in
  properties (heap w) (length store).

(** A hook that does not throw, whatever payload it is given. *)
Definition never_throws (hook : option (EventData.t → Completion EventData.t)) : Prop :=
  match hook with
  | Some hook => ∀ payload, ∃ payload', hook payload = Normal payload'
  | None => True
  end.

(** What the hook step of [formatAndSend] makes of a composed payload:
    the hook's result when there is a hook, the payload itself when there
    is none. *)
Definition after_beforeSend (this : This.Catcher) (payload : EventData.t) :
    Completion EventData.t :=
  match This.beforeSend this with
  | Some beforeSend => beforeSend payload
  | None => Normal payload
  end.

(** ** Inputs for the examples *)

Module Example.

(** base64 of [{"integrationId":"abc","secret":"xyz"}] and of
    [{"integrationId":"prj-9","secret":"s"}]. *)
Definition token_abc : string := "eyJpbnRlZ3JhdGlvbklkIjoiYWJjIiwic2VjcmV0IjoieHl6In0=".
Definition token_prj9 : string := "eyJpbnRlZ3JhdGlvbklkIjoicHJqLTkiLCJzZWNyZXQiOiJzIn0=".

(** base64 of [{"secret":"xyz"}]: JSON without an [integrationId]. *)
Definition token_without_id : string := "eyJzZWNyZXQiOiJ4eXoifQ==".

Definition one : Json := JNumber false "1".
Definition two : Json := JNumber false "2".
Definition three : Json := JNumber false "3".
Definition four : Json := JNumber false "4".

(** [{a: 1, b: 2}] and [{b: 3, c: 4}]. *)
Definition a1_b2 : obj := [("a", one); ("b", two)].
Definition b3_c4 : obj := [("b", three); ("c", four)].

(** A hook that blanks the title, and one that throws. *)
Definition redact : EventData.t → Completion EventData.t :=
  λ p, Normal (EventData.mk "[redacted]" (EventData.type p) (EventData.backtrace p)
                 (EventData.user p) (EventData.context p) (EventData.catcherVersion p)).
Definition failing_hook : EventData.t → Completion EventData.t :=
  λ _, Throw (new_Error "beforeSend failed").

Definition settings (token : option string) (collectorEndpoint : option string)
    (beforeSend : option (EventData.t → Completion EventData.t)) : HawkNodeJSInitialSettings.t :=
  HawkNodeJSInitialSettings.mk token collectorEndpoint None beforeSend None.

Definition type_error : Error :=
  mkError "TypeError" "undefined is not a function" (Some "at render (App.js:10:3)").

(** A store holding the two example contexts, at references 0 and 1. *)
Definition store : World := with_heap [a1_b2; b3_c4] fresh_world.

End Example.

(** ** Vocabulary for the properties beyond the specification *)

(** The endpoint as the constructor evaluates it: the override when it
    is there and not empty, and only otherwise the template literal, which
    throws when [ToString] does. *)
Definition endpoint_for (settings : HawkNodeJSInitialSettings.t + string)
    (id : Json) : Completion string :=
  if truthy (override_of settings) then Normal (default "" (override_of settings))
  else match ToString id with
       | Normal text => Normal ("https://" +:+ text +:+ ".k1.hawk.so/")
       | Throw e => Throw e
       end.

(** The text of a value that [ToString] renders; the empty string stands
    for a value it throws on. *)
Definition rendered (v : Json) : string :=
  match ToString v with
  | Normal s => s
  | Throw _ => ""
  end.

(** The instance a construction builds when the token's [integrationId]
    is the JSON value [id], of whatever type: without a usable override
    the template literal renders the id with [ToString], and construction
    goes through only if that does not throw. *)
Definition instance_with (settings : HawkNodeJSInitialSettings.t + string)
    (token : string) (id : Json) : This.Catcher := {|
  This.token := token;
  This.collectorEndpoint :=
    or_else (override_of settings) ("https://" +:+ rendered id +:+ ".k1.hawk.so/");
  This.context := context_of settings;
  This.beforeSend := beforeSend_of settings;
|}.

(** The object [getContext] builds from the properties of the default
    context and of the call's context: two [Object.assign] into [{}]. *)
Definition merged_object (defaultContext callContext : obj) : Object :=
  assign_props (assign_props (mkObject ObjectPrototype []) defaultContext) callContext.

(** Its own properties. *)
Definition merged_props (defaultContext callContext : obj) : obj :=
  own (merged_object defaultContext callContext).

(** The world with the object [o] created at the next free reference. *)
Definition with_new_object (o : Object) (w : World) : World :=
  with_prototypes (store_prototype (length (heap w)) (prototype o) (prototypes w))
    (with_heap (heap w ++ [own o]) w).

(** The prototype of the merged object once the default context is
    copied: changed when that context has an own [__proto__] whose value
    is an object or [null]. *)
Definition prototype_after (defaultContext : obj) : Prototype :=
  match Js.get "__proto__" defaultContext with
  | Some v => set_prototype v ObjectPrototype
  | None => ObjectPrototype
  end.

(** The payload [formatAndSend] composes for a call made in world [w]. *)
Definition composed_for `{Host} `{EventPayload} (this : This.Catcher) (w : World)
    (c : SendCall) : EventData.t :=
  Catcher.composed (call_error c) (call_user c)
    (merged_props (properties_of w (This.context this)) (properties_of w (call_context c))).

(** The requests one call of [send] issues: one when the hook step
    returns, none when the hook throws. *)
Definition requests_of_call `{Host} `{EventPayload} (this : This.Catcher) (w : World)
    (c : SendCall) : list Request :=
  match after_beforeSend this (composed_for this w c) with
  | Normal payload => [request_for this payload]
  | Throw _ => []
  end.

(** The keys of an object, in the order it lists them. *)
Definition keys (o : obj) : list string := o.*1.

(** The order JavaScript keeps the own keys in: no key stands before one
    it would have been listed before, so the array indices come first,
    ascending, and the other keys after them. *)
Definition js_ordered (o : obj) : Prop :=
  StronglySorted (λ k k', goes_before k' k = false) (keys o).

(** A key that is no array index and is not [__proto__]: where it stands
    among such keys is decided by insertion alone. *)
Definition ordinary_key (k : string) : Prop :=
  array_index k = None ∧ k ≠ "__proto__".

#[global] Instance ordinary_key_dec k : Decision (ordinary_key k).
Proof. unfold ordinary_key. apply _. Defined.

(** Base64 as RFC 4648 writes it: characters of the standard alphabet,
    then at most two [=] of padding, in all a multiple of four. *)
Definition base64_alphabet (c : ascii) : bool :=
  Reference.between 65 90 c || Reference.between 97 122 c || Reference.between 48 57 c
  || (Reference.code c =? 43)%N || (Reference.code c =? 47)%N.

Fixpoint base64_body (s : string) : bool :=
  match s with
  | EmptyString => true
  | String c s' =>
      if base64_alphabet c then base64_body s'
      else (Reference.code c =? 61)%N
           && (String.eqb s' "" || String.eqb s' "=")
  end.

Definition valid_base64 (s : string) : bool :=
  (String.length s mod 4 =? 0)%nat && base64_body s.

Module More.

(** [eyJpbnRlZ3JhdGlvbklkIjoiYWJjIn0], the base64 of
    [{"integrationId":"abc"}] without its padding, with a space and a star
    put in: not base64. *)
Definition token_malformed : string := "eyJpbnRlZ3Jh dGlvbklk*IjoiYWJjIn0".

(** base64 of [{"integrationId":[]}]: the id is an empty array. *)
Definition token_empty_array : string := "eyJpbnRlZ3JhdGlvbklkIjpbXX0=".

(** base64 of [{"integrationId":{"toString":1}}]: the id is an object
    with an own [toString] property. *)
Definition token_object_id : string := "eyJpbnRlZ3JhdGlvbklkIjp7InRvU3RyaW5nIjoxfX0=".

(** [{b: 1}] at reference 0 and [{"1": 2}] at 1: the call's context has
    an array index as key. *)
Definition b1 : obj := [("b", Example.one)].
Definition index1 : obj := [("1", Example.two)].
Definition index_store : World := with_heap [b1; index1] fresh_world.

(** [{"__proto__": 1, c: 4}], with [__proto__] as an own property, as
    [JSON.parse] builds it, alone in a store. *)
Definition proto1_c4 : obj := [("__proto__", Example.one); ("c", Example.four)].
Definition proto_store : World := with_heap [proto1_c4] fresh_world.

(** [{"__proto__": null}] at reference 0, as default context, and the
    object above at 1. *)
Definition proto_null : obj := [("__proto__", JNull)].
Definition null_proto_store : World := with_heap [proto_null; proto1_c4] fresh_world.

(** base64 of [{"integrationId":42}]: the id is a number. *)
Definition token_42 : string := "eyJpbnRlZ3JhdGlvbklkIjo0Mn0=".

(** Settings that switch global handling off. *)
Definition settings_without_global_handling (token : string) : HawkNodeJSInitialSettings.t :=
  HawkNodeJSInitialSettings.mk (Some token) None None None (Some true).

(** [{x: 1}], sharing no key with [{b: 3, c: 4}]. *)
Definition x1 : obj := [("x", Example.one)].

(** A store with [{x: 1}] at reference 0 and [{b: 3, c: 4}] at 1. *)
Definition store : World := with_heap [x1; Example.b3_c4] fresh_world.

End More.

(** Validity of an example token on the reference host, by running the
    decoder and the parser: [props] are the members the token holds. *)
Ltac by_decoding props :=
  split; [discriminate|]; split; [discriminate|];
  eexists _, props; split; [reflexivity|]; split; vm_compute; reflexivity.

Ltac valid_abc :=
  by_decoding [("integrationId", JString "abc"); ("secret", JString "xyz")].
Ltac valid_prj9 :=
  by_decoding [("integrationId", JString "prj-9"); ("secret", JString "s")].

(** * Properties *)

Section properties.
Context `{Host} `{EventPayload}.

(** ** Running statements *)

Lemma bind_normal {A B} (m : M A) (f : A → M B) w a w' :
  m w = (Normal a, w') → (m ≫= f) w = f a w'.
Proof. intros Hm. unfold mbind, M_bind. by rewrite Hm. Qed.

Lemma bind_throw {A B} (m : M A) (f : A → M B) w e w' :
  m w = (Throw e, w') → (m ≫= f) w = (Throw e, w').
Proof. intros Hm. unfold mbind, M_bind. by rewrite Hm. Qed.

Lemma string_eqb_empty (s : string) : s ≠ "" → String.eqb s "" = false.
Proof. intros Hs. by apply String.eqb_neq. Qed.

Lemma truthy_Some (s : string) : s ≠ "" → truthy (Some s) = true.
Proof. intros Hs. simpl. by rewrite string_eqb_empty. Qed.

(** ** The token codec *)

Lemma getIntegrationId_valid token id w :
  valid_token token id →
  Catcher.getIntegrationId token w = (Normal (JString id), w).
Proof.
  intros (_ & Hid & text & props & Hdec & Hparse & Hget).
  unfold Catcher.getIntegrationId, mbind, M_bind, call.
  rewrite Hdec, Hparse. simpl. rewrite Hget. simpl.
  by rewrite string_eqb_empty.
Qed.

Lemma falsy_or_empty (v : Json) :
  ToBoolean v = false → negb (ToBoolean v) || is_empty_string v = true.
Proof. by intros ->. Qed.

Lemma getIntegrationId_rejected token w :
  rejected_by_codec token →
  ∃ e, Catcher.getIntegrationId token w = (Throw e, w).
Proof.
  unfold Catcher.getIntegrationId, mbind, M_bind, call.
  intros [e Hdec | text e Hdec Hparse | text value Hdec Hparse Hlacks].
  - rewrite Hdec. eauto.
  - rewrite Hdec, Hparse. eauto.
  - rewrite Hdec, Hparse. unfold lacks_integrationId in Hlacks.
    destruct (get_property value "integrationId") as [[id|]|e]; [|eauto..].
    rewrite (falsy_or_empty _ Hlacks). unfold throw. eauto.
Qed.

(** ** Construction *)

(** The constructor, once the token has passed the guard: it returns
    when [getIntegrationId] does and the endpoint can be evaluated; any
    error thrown on the way comes out as the generic one. *)
Lemma constructor_with_token settings token w :
  token_of settings = Some token → token ≠ "" →
  Catcher.constructor settings w =
    match Catcher.getIntegrationId token w with
    | (Normal id, w1) =>
        match endpoint_for settings id with
        | Normal _ =>
            (Normal (instance_with settings token id),
             constructed_world settings (instance_with settings token id) w1)
        | Throw _ => (Throw InvalidTokenError, w1)
        end
    | (Throw _, w1) => (Throw InvalidTokenError, w1)
    end.
Proof.
  intros Htok Hne.
  unfold Catcher.constructor, instance_with, constructed_world, endpoint_for, rendered.
  destruct settings as [[tk ov cx bs dis] | t]; simpl in *.
  - subst tk. rewrite truthy_Some by done. simpl.
    unfold try_catch, mbind, M_bind.
    destruct (Catcher.getIntegrationId token w) as [[id|e] w1]; [|done].
    destruct ov as [s|]; simpl.
    + destruct (String.eqb s "") eqn:Hs; simpl.
      * unfold call. destruct (ToString id); [|done]. by destruct dis as [[]|].
      * by destruct dis as [[]|].
    + unfold call. destruct (ToString id); [|done]. by destruct dis as [[]|].
  - injection Htok as ->. rewrite string_eqb_empty by done. simpl.
    unfold try_catch, mbind, M_bind.
    destruct (Catcher.getIntegrationId token w) as [[id|e] w1]; [|done].
    unfold call. by destruct (ToString id).
Qed.

Lemma constructor_rejects settings token w :
  token_of settings = Some token → token ≠ "" → rejected_by_codec token →
  Catcher.constructor settings w = (Throw InvalidTokenError, w).
Proof.
  intros Htok Hne Hrej.
  destruct (getIntegrationId_rejected token w Hrej) as [e He].
  by rewrite (constructor_with_token settings token w Htok Hne), He.
Qed.

Lemma constructor_accepts settings token id w :
  token_of settings = Some token → valid_token token id →
  Catcher.constructor settings w =
    (Normal (instance_for settings token id),
     constructed_world settings (instance_for settings token id) w).
Proof.
  intros Htok Hvalid. pose proof Hvalid as (Hne & _).
  rewrite (constructor_with_token settings token w Htok Hne),
          (getIntegrationId_valid token id w Hvalid).
  unfold endpoint_for. simpl. by destruct (truthy (override_of settings)).
Qed.

Lemma constructor_missing settings w :
  truthy (token_of settings) = false →
  Catcher.constructor settings w = (Throw MissingTokenError, w).
Proof.
  intros Hfalsy. unfold Catcher.constructor.
  destruct settings as [[[tk|] ov cx bs dis] | t]; simpl in *; try done;
    by destruct (String.eqb _ "").
Qed.

(** ** Objects and the store *)

Lemma get_set k k' v (o : obj) :
  Js.get k (Js.set k' v o) = if String.eqb k k' then Some v else Js.get k o.
Proof.
  induction o as [|[k0 v0] o IH]; simpl.
  - by destruct (String.eqb k k').
  - destruct (String.eqb k' k0) eqn:Hk'; simpl.
    + apply String.eqb_eq in Hk' as ->. by destruct (String.eqb k k0).
    + destruct (goes_before k' k0); simpl; [done|].
      rewrite IH. destruct (String.eqb k k0) eqn:Hk; [|done].
      apply String.eqb_eq in Hk as ->.
      destruct (String.eqb k0 k') eqn:Hk0; [|done].
      apply String.eqb_eq in Hk0 as ->. by rewrite String.eqb_refl in Hk'.
Qed.

Lemma get_None k (o : obj) : k ∉ o.*1 → Js.get k o = None.
Proof.
  induction o as [|[k0 v0] o IH]; simpl; [done|].
  intros Hk. apply not_elem_of_cons in Hk as [Hne Hk].
  apply String.eqb_neq in Hne as ->. auto.
Qed.

Lemma get_Some_elem_of k (o : obj) : is_Some (Js.get k o) ↔ k ∈ keys o.
Proof.
  unfold keys. induction o as [|[k0 v0] o IH].
  - simpl. split; [by intros [? ?]|]. intros Hin. by apply elem_of_nil in Hin.
  - rewrite fmap_cons, elem_of_cons. cbn [Js.get fst].
    destruct (String.eqb k k0) eqn:Hk.
    + apply String.eqb_eq in Hk. split; [by left|by eexists].
    + apply String.eqb_neq in Hk. rewrite IH. split; [by right | by intros [?|?]].
Qed.

(** An assignment to another key than [__proto__] defines or updates an
    own property and leaves the prototype alone. *)
Lemma put_other k v (o : Object) :
  k ≠ "__proto__" → put k v o = mkObject (prototype o) (Js.set k v (own o)).
Proof.
  intros Hk. unfold put. apply String.eqb_neq in Hk as ->. simpl.
  by destruct (Js.get k (own o)).
Qed.

(** An assignment is seen by a read of its key, when that is not
    [__proto__], and by a read of no other key. *)
Lemma get_put k k' v (o : Object) :
  k ≠ "__proto__" →
  Js.get k (own (put k' v o)) = if String.eqb k k' then Some v else Js.get k (own o).
Proof.
  intros Hk. unfold put. destruct (Js.get k' (own o)); [apply get_set|].
  destruct (String.eqb k' "__proto__" && inherits_proto_accessor (prototype o)) eqn:Hset;
    [|apply get_set].
  apply andb_true_iff in Hset as [Hk' _]. apply String.eqb_eq in Hk' as ->.
  by apply String.eqb_neq in Hk as ->.
Qed.

(** After [Object.assign], a key of the source other than [__proto__] has
    the source's value and any other key keeps the target's. *)
Lemma get_assign_props k (source : obj) : ∀ target : Object,
  k ≠ "__proto__" → unique_keys source →
  Js.get k (own (assign_props target source)) = merged_lookup (own target) source k.
Proof.
  unfold assign_props, merged_lookup, unique_keys.
  induction source as [|[k0 v0] source IH]; intros target Hk Hnodup; simpl; [done|].
  apply NoDup_cons in Hnodup as [Hfresh Hnodup].
  rewrite IH, get_put by done.
  destruct (String.eqb k k0) eqn:Heq; [|done].
  apply String.eqb_eq in Heq as ->. by rewrite get_None.
Qed.

(** [Object.assign] from a source without [__proto__] leaves the
    target's prototype and its own [__proto__], if any, as they are. *)
Lemma assign_props_without_proto (source : obj) : ∀ target : Object,
  "__proto__" ∉ keys source →
  prototype (assign_props target source) = prototype target ∧
  Js.get "__proto__" (own (assign_props target source)) = Js.get "__proto__" (own target).
Proof.
  unfold assign_props, keys.
  induction source as [|[k0 v0] source IH]; intros target Hp; [done|].
  rewrite fmap_cons in Hp. cbn [fst] in Hp. apply not_elem_of_cons in Hp as [Hne Hp].
  cbn [fold_left fst snd]. destruct (IH (put k0 v0 target) Hp) as [-> ->].
  rewrite put_other by congruence. cbn [prototype own]. split; [done|].
  rewrite get_set. by apply String.eqb_neq in Hne as ->.
Qed.

(** [Object.assign] from a source with [__proto__] to a target that has
    no such property of its own: the value goes to the inherited setter
    when the target's prototype chain leads to it, and becomes an own
    property otherwise. *)
Lemma assign_props_proto (source : obj) : ∀ target : Object,
  unique_keys source → Js.get "__proto__" (own target) = None →
  match Js.get "__proto__" source with
  | None =>
      prototype (assign_props target source) = prototype target ∧
      Js.get "__proto__" (own (assign_props target source)) = None
  | Some v =>
      if inherits_proto_accessor (prototype target)
      then prototype (assign_props target source) = set_prototype v (prototype target) ∧
           Js.get "__proto__" (own (assign_props target source)) = None
      else prototype (assign_props target source) = prototype target ∧
           Js.get "__proto__" (own (assign_props target source)) = Some v
  end.
Proof.
  unfold unique_keys.
  induction source as [|[k0 v0] source IH]; intros target Hu Hnone; [done|].
  rewrite fmap_cons in Hu. cbn [fst] in Hu. apply NoDup_cons in Hu as [Hfresh Hu].
  change (assign_props target ((k0, v0) :: source))
    with (assign_props (put k0 v0 target) source).
  cbn [Js.get]. destruct (String.eqb "__proto__" k0) eqn:Hk0.
  - apply String.eqb_eq in Hk0 as <-.
    destruct (assign_props_without_proto source (put "__proto__" v0 target) Hfresh)
      as [-> ->].
    unfold put. rewrite Hnone. cbn [String.eqb Ascii.eqb Bool.eqb andb].
    destruct (inherits_proto_accessor (prototype target)); cbn [prototype own]; [done|].
    split; [done|]. by rewrite get_set.
  - apply String.eqb_neq in Hk0.
    assert (put k0 v0 target = mkObject (prototype target) (Js.set k0 v0 (own target)))
      as Hput by (apply put_other; congruence).
    specialize (IH (put k0 v0 target) Hu). rewrite Hput in IH |- *. cbn [prototype own] in IH.
    apply IH. rewrite get_set. by apply String.eqb_neq in Hk0 as ->.
Qed.

(** The merged object: its prototype after the default context, and its
    own [__proto__]. *)
Lemma merged_object_proto (D C : obj) :
  unique_keys D → unique_keys C →
  Js.get "__proto__" (merged_props D C) =
    if inherits_proto_accessor (prototype_after D) then None else Js.get "__proto__" C.
Proof.
  intros Hud Huc. unfold merged_props, merged_object, prototype_after.
  pose proof (assign_props_proto D (mkObject ObjectPrototype []) Hud eq_refl) as HD.
  cbn [prototype inherits_proto_accessor] in HD.
  assert (prototype (assign_props (mkObject ObjectPrototype []) D) =
            match Js.get "__proto__" D with
            | Some v => set_prototype v ObjectPrototype
            | None => ObjectPrototype
            end ∧
          Js.get "__proto__" (own (assign_props (mkObject ObjectPrototype []) D)) = None)
    as [Hproto Hown] by (by destruct (Js.get "__proto__" D)).
  pose proof (assign_props_proto C _ Huc Hown) as HC. rewrite Hproto in HC.
  destruct (Js.get "__proto__" C) as [v|].
  - by destruct (inherits_proto_accessor _); destruct HC as [_ ->].
  - destruct HC as [_ ->]. by destruct (inherits_proto_accessor _).
Qed.

Lemma insert_last (h : list obj) (o o' : obj) :
  <[length h := o']> (h ++ [o]) = h ++ [o'].
Proof. induction h as [|o0 h IH]; simpl; [done|]. by rewrite IH. Qed.

Lemma properties_last (h : list obj) (o : obj) : properties (h ++ [o]) (length h) = o.
Proof. unfold properties. by rewrite list_lookup_middle. Qed.

Lemma properties_before (h : list obj) (o : obj) l :
  l < length h → properties (h ++ [o]) l = properties h l.
Proof. intros Hl. unfold properties. by rewrite lookup_app_l. Qed.

Lemma Object_eta (o : Object) : mkObject (prototype o) (own o) = o.
Proof. by destruct o. Qed.

Lemma lookup_store_prototype l p (ps : gmap loc Prototype) :
  default ObjectPrototype (store_prototype l p ps !! l) = p.
Proof.
  destruct p; simpl; by rewrite ?lookup_delete_eq, ?lookup_insert_eq.
Qed.

Lemma store_prototype_twice l p p' (ps : gmap loc Prototype) :
  store_prototype l p' (store_prototype l p ps) = store_prototype l p' ps.
Proof.
  destruct p, p'; simpl;
    by rewrite ?delete_delete_eq, ?delete_insert_eq, ?insert_delete_eq, ?insert_insert_eq.
Qed.

(** [getContext] returns the next free reference and touches the store
    only. *)
Lemma getContext_returns this context w :
  ∃ s, Catcher.getContext this context w = (Normal (length (heap w)), with_store s w).
Proof.
  unfold Catcher.getContext, mbind, M_bind, new_object, Object_assign, update, mret, M_ret.
  destruct (This.context this), context; simpl; by eexists (_, _).
Qed.

(** With both references allocated, the new object is the default
    context's properties overlaid with the call's, after the old store. *)
Lemma getContext_allocated this context w :
  allocated w (This.context this) → allocated w context →
  Catcher.getContext this context w =
    let merged := merged_object (properties_of w (This.context this))
                                (properties_of w context) in
    (Normal (length (heap w)),
     with_prototypes (store_prototype (length (heap w)) (prototype merged) (prototypes w))
       (with_heap (heap w ++ [own merged]) w)).
Proof.
  unfold Catcher.getContext, mbind, M_bind, new_object, Object_assign, update, mret, M_ret,
    merged_object, object_at.
  change (delete (length (heap w)) (prototypes w))
    with (store_prototype (length (heap w)) ObjectPrototype (prototypes w)).
  destruct (This.context this) as [d|], context as [c|]; cbn [allocated]; intros Hd Hc;
    cbn [heap prototypes with_heap with_prototypes properties_of fetched console
         jsExceptionHandler _instance];
    rewrite ?properties_last, ?(properties_before _ _ _ Hd), ?insert_last,
            ?lookup_store_prototype, ?store_prototype_twice, ?Object_eta;
    cbn [heap prototypes with_heap with_prototypes properties_of fetched console
         jsExceptionHandler _instance];
    rewrite ?properties_last, ?(properties_before _ _ _ Hc), ?insert_last,
            ?lookup_store_prototype, ?store_prototype_twice, ?Object_eta;
    done.
Qed.

(** C4, amended: the context merge.  [getContext] returns a new object,
    at a reference that was free before the call; for every key other
    than [__proto__] its value is the one of the call's context (none
    when absent) if that has the key, and otherwise the one of the
    instance's default context (none when absent).  An own [__proto__]
    property of a context is not copied: its value goes to the setter the
    new object inherits.  Only when the default context's [__proto__] has
    cut the new object off from that setter (its value is [null], or an
    object with a [__proto__] of its own) does the call context's
    [__proto__] become an own property.  Every object that was in the
    store, the two inputs among them, is left as it was.  Merging
    [{a:1,b:2}] with [{b:3,c:4}] gives [{a:1,b:3,c:4}], and merging two
    absent contexts gives [{}]. *)
Theorem getContext_merges_without_mutation this context w :
  allocated w (This.context this) → allocated w context →
  unique_keys (properties_of w (This.context this)) →
  unique_keys (properties_of w context) →
  (∃ contextMerged w',
     Catcher.getContext this context w = (Normal contextMerged, w') ∧
     heap w !! contextMerged = None ∧
     is_Some (heap w' !! contextMerged) ∧
     (∀ k, k ≠ "__proto__" →
           Js.get k (properties (heap w') contextMerged) =
             merged_lookup (properties_of w (This.context this)) (properties_of w context) k) ∧
     Js.get "__proto__" (properties (heap w') contextMerged) =
       (if inherits_proto_accessor (prototype_after (properties_of w (This.context this)))
        then None
        else Js.get "__proto__" (properties_of w context)) ∧
     (∀ l, l < length (heap w) →
           heap w' !! l = heap w !! l ∧ prototypes w' !! l = prototypes w !! l) ∧
     properties_of w' (This.context this) = properties_of w (This.context this) ∧
     properties_of w' context = properties_of w context) ∧
  merge (Some Example.a1_b2) (Some Example.b3_c4)
    = [("a", Example.one); ("b", Example.three); ("c", Example.four)] ∧
  merge None None = [].
Proof.
  intros Hd Hc Hud Huc. split; [|by split].
  eexists _, _. split; [by apply getContext_allocated|].
  cbn [heap prototypes with_heap with_prototypes].
  split; [by apply lookup_ge_None_2|].
  split; [rewrite list_lookup_middle; eauto|].
  rewrite properties_last.
  split; [|split; [|split; [|split]]].
  - intros k Hk. unfold merged_object. rewrite (get_assign_props k _ _ Hk Huc).
    unfold merged_lookup at 1. rewrite (get_assign_props k _ _ Hk Hud).
    unfold merged_lookup. simpl.
    by destruct (Js.get k (properties_of w context)),
                (Js.get k (properties_of w (This.context this))).
  - by apply merged_object_proto.
  - intros l Hl. split; [by apply lookup_app_l|].
    assert (l ≠ length (heap w)) as Hne by lia.
    destruct (prototype _); simpl; by rewrite ?lookup_delete_ne, ?lookup_insert_ne.
  - unfold properties_of. cbn [heap with_heap with_prototypes].
    destruct (This.context this); [|done]. by apply properties_before.
  - unfold properties_of. cbn [heap with_heap with_prototypes].
    destruct context; [|done]. by apply properties_before.
Qed.

(** ** Sending *)

(** One run of [formatAndSend]: the merged context is allocated, the hook
    step runs on the composed payload, and its result goes to [fetch];
    when the hook throws, nothing is sent. *)
Lemma formatAndSend_run this err context user w :
  ∃ s,
    Catcher.formatAndSend this err context user w =
      match after_beforeSend this (Catcher.composed err user (merged_context this context w)) with
      | Normal payload =>
          (Normal (), with_fetched (fetched w ++ [request_for this payload]) (with_store s w))
      | Throw e => (Throw e, with_store s w)
      end.
Proof.
  destruct (getContext_returns this context w) as [h Hh]. exists h.
  unfold Catcher.formatAndSend, merged_context, after_beforeSend.
  rewrite (bind_normal _ _ _ _ _ Hh), Hh. simpl.
  unfold mbind, M_bind, read, call, mret, M_ret. simpl.
  destruct (This.beforeSend this) as [hook|]; [|done].
  by destruct (hook _).
Qed.

Lemma never_throws_after this payload :
  never_throws (This.beforeSend this) → ∃ payload', after_beforeSend this payload = Normal payload'.
Proof.
  unfold never_throws, after_beforeSend.
  destruct (This.beforeSend this); eauto.
Qed.

(** A send leaves the singleton, the handler and the console alone, and
    any request it issues goes to the instance's endpoint. *)
Lemma send_footprint this error context user w :
  let w' := snd (Catcher.send this error context user w) in
  _instance w' = _instance w ∧ jsExceptionHandler w' = jsExceptionHandler w ∧
  console w' = console w ∧
  ∃ new, fetched w' = fetched w ++ new ∧
         Forall (λ r, url r = This.collectorEndpoint this) new.
Proof.
  unfold Catcher.send.
  destruct (formatAndSend_run this error context user w) as [h ->].
  destruct (after_beforeSend _ _) as [payload|e]; simpl; repeat split.
  - exists [request_for this payload]. split; [done|]. by apply Forall_singleton.
  - exists []. split; [by rewrite app_nil_r|]. by apply Forall_nil.
Qed.

(** The promise of [sendErrorFormatted] is fulfilled whatever the
    transport did; a rejection leaves one line on the console. *)
Lemma sendErrorFormatted_settled_fulfilled outcome w :
  Catcher.sendErrorFormatted_settled outcome w =
    (fulfilled,
     match outcome with
     | fetch_resolved _ => w
     | fetch_rejected err =>
         with_console (console w ++
           [console_error ("[Hawk] Cannot send an event because of " +:+ Error_toString err)]) w
     end).
Proof. by destruct outcome. Qed.

(** C1, amended: [send] and [test] return normally, and once the request
    has settled (with a response of any status, or with a rejection) the
    promise of the delivery is fulfilled, a rejection having been logged
    with [console.error] and not raised again; this holds for an instance
    without a [beforeSend] hook and for one whose hook does not throw. *)
Theorem send_never_raises this error context user w :
  never_throws (This.beforeSend this) →
  (∃ w', Catcher.send this error context user w = (Normal (), w') ∧
         length (fetched w') = S (length (fetched w))) ∧
  (∃ w', Catcher.test this w = (Normal (), w') ∧
         length (fetched w') = S (length (fetched w))) ∧
  ∀ outcome w', ∃ w'',
    Catcher.sendErrorFormatted_settled outcome w' = (fulfilled, w'') ∧
    console w'' =
      console w' ++
      match outcome with
      | fetch_resolved _ => []
      | fetch_rejected err =>
          [console_error ("[Hawk] Cannot send an event because of " +:+ Error_toString err)]
      end.
Proof.
  intros Hhook. split; [|split].
  - unfold Catcher.send.
    destruct (formatAndSend_run this error context user w) as [h ->].
    destruct (never_throws_after this
      (Catcher.composed error user (merged_context this context w)) Hhook) as [p ->].
    eexists. split; [done|]. simpl. rewrite length_app. simpl. lia.
  - unfold Catcher.test, Catcher.send.
    destruct (formatAndSend_run this
      (new_Error "Hawk NodeJS Catcher test message") None None w) as [h ->].
    destruct (never_throws_after this
      (Catcher.composed (new_Error "Hawk NodeJS Catcher test message") None
         (merged_context this None w)) Hhook) as [p ->].
    eexists. split; [done|]. simpl. rewrite length_app. simpl. lia.
  - intros outcome w'. rewrite sendErrorFormatted_settled_fulfilled.
    eexists. split; [done|]. destruct outcome; simpl; by rewrite ?app_nil_r.
Qed.

(** C5: the payload that goes over the wire.  With a [beforeSend] hook
    that returns, the request [send] issues carries the envelope whose
    payload is the hook's return value on the composed payload; with no
    hook it carries the composed payload itself. *)
Theorem send_puts_hook_result_in_envelope this error context user w payload :
  match This.beforeSend this with
  | Some beforeSend =>
      beforeSend (Catcher.composed error user (merged_context this context w)) = Normal payload
  | None => payload = Catcher.composed error user (merged_context this context w)
  end →
  ∃ w',
    Catcher.send this error context user w = (Normal (), w') ∧
    fetched w' = fetched w ++ [{|
      url := This.collectorEndpoint this;
      method := "POST";
      headers := [("Content-Type", "application/json")];
      body := JSON_stringify {|
        HawkEvent.token := This.token this;
        HawkEvent.catcherType := "errors/react-native";
        HawkEvent.payload := payload;
      |};
    |}].
Proof.
  intros Hpayload. unfold Catcher.send.
  destruct (formatAndSend_run this error context user w) as [h ->].
  unfold after_beforeSend.
  destruct (This.beforeSend this) as [hook|]; [rewrite Hpayload | subst payload];
    by eexists.
Qed.

(** C6: the callback installed as global exception handler.  Whatever
    [error] and [isFatal] the host runtime reports, the callback logs them
    and sends one request to the instance's endpoint, whose envelope has
    the instance's token, the catcher type, and a payload made of the
    title alone, equal to the error's name: no type, backtrace, user,
    context or catcher version. *)
Theorem uncaught_exception_sends_title_only handler error isFatal w :
  jsExceptionHandler w = Some handler →
  ∃ w',
    uncaught_exception error isFatal w = (Normal (), w') ∧
    fetched w' = fetched w ++ [{|
      url := This.collectorEndpoint (handler_this handler);
      method := "POST";
      headers := [("Content-Type", "application/json")];
      body := JSON_stringify {|
        HawkEvent.token := This.token (handler_this handler);
        HawkEvent.catcherType := "errors/react-native";
        HawkEvent.payload := {|
          EventData.title := name error;
          EventData.type := None;
          EventData.backtrace := None;
          EventData.user := None;
          EventData.context := None;
          EventData.catcherVersion := None;
        |};
      |};
    |}] ∧
    console w' = console w ++ [console_log "Error" error (stack error) isFatal] ∧
    heap w' = heap w.
Proof.
  intros Hhandler. unfold uncaught_exception, mbind, M_bind, read.
  rewrite Hhandler. by eexists.
Qed.

(** ** The facade *)

Lemma init_accepts settings token id w :
  token_of settings = Some token → valid_token token id →
  HawkCatcher.init settings w =
    (Normal (),
     with_instance (Some (instance_for settings token id))
       (constructed_world settings (instance_for settings token id) w)).
Proof.
  intros Htok Hvalid. unfold HawkCatcher.init.
  by rewrite (bind_normal _ _ _ _ _ (constructor_accepts settings token id w Htok Hvalid)).
Qed.

Lemma init_throws settings e w :
  Catcher.constructor settings w = (Throw e, w) →
  HawkCatcher.init settings w = (Throw e, w).
Proof. intros Hc. unfold HawkCatcher.init. by rewrite (bind_throw _ _ _ _ _ Hc). Qed.

Lemma facade_send_delegates this error context user w :
  _instance w = Some this →
  HawkCatcher.send error context user w = Catcher.send this error context user w.
Proof.
  intros Hi. unfold HawkCatcher.send, mbind, M_bind, read. by rewrite Hi.
Qed.

(** However many sends follow, the singleton stays and every request goes
    to its endpoint. *)
Lemma facade_sends_route this calls : ∀ w,
  _instance w = Some this →
  _instance (facade_sends calls w) = Some this ∧
  ∃ new, fetched (facade_sends calls w) = fetched w ++ new ∧
         Forall (λ r, url r = This.collectorEndpoint this) new.
Proof.
  induction calls as [|[error context user] calls IH]; intros w Hi; simpl.
  - split; [done|]. exists []. by rewrite app_nil_r.
  - rewrite (facade_send_delegates _ _ _ _ _ Hi).
    destruct (send_footprint this error context user w)
      as (Hi' & _ & _ & new & Hnew & Hurl).
    destruct (IH (snd (Catcher.send this error context user w)))
      as (Hi'' & new' & Hnew' & Hurl'); [congruence|].
    split; [done|]. exists (new ++ new').
    rewrite Hnew', Hnew, (assoc_L (++)). split; [done|]. by apply Forall_app.
Qed.

(** C7: the facade's [send] before any [init].  With no singleton in
    place the call returns normally and changes nothing: no request, no
    log line, no allocation. *)
Theorem facade_send_before_init_is_noop error context user w :
  _instance w = None →
  HawkCatcher.send error context user w = (Normal (), w).
Proof.
  intros Hi. unfold HawkCatcher.send, mbind, M_bind, read. by rewrite Hi.
Qed.

(** C8: construction without a token.  A settings object that has no
    token field makes the constructor, and so [init], throw the
    missing-token error; nothing is installed and no singleton is set. *)
Theorem constructor_without_token_fails settings w :
  HawkNodeJSInitialSettings.token settings = None →
  Catcher.constructor (inl settings) w = (Throw MissingTokenError, w) ∧
  HawkCatcher.init (inl settings) w = (Throw MissingTokenError, w).
Proof.
  intros Htok.
  assert (Catcher.constructor (inl settings) w = (Throw MissingTokenError, w)) as Hc.
  { apply constructor_missing. simpl. by rewrite Htok. }
  split; [done|]. by apply init_throws.
Qed.

(** A facade send whose hook step returns issues one request, the one
    for the hook's result, and leaves the singleton in place. *)
Lemma facade_send_issues this error context user w payload :
  _instance w = Some this →
  after_beforeSend this (Catcher.composed error user (merged_context this context w))
    = Normal payload →
  ∃ w', HawkCatcher.send error context user w = (Normal (), w') ∧
        fetched w' = fetched w ++ [request_for this payload] ∧
        _instance w' = Some this.
Proof.
  intros Hi Hstep. rewrite (facade_send_delegates _ _ _ _ _ Hi). unfold Catcher.send.
  destruct (formatAndSend_run this error context user w) as [h ->].
  rewrite Hstep. by eexists.
Qed.

(** With a hook that never throws, every facade send of a run issues its
    request for the singleton. *)
Lemma facade_sends_all_routed this calls : ∀ w,
  _instance w = Some this → never_throws (This.beforeSend this) →
  ∃ new, fetched (facade_sends calls w) = fetched w ++ new ∧
         length new = length calls ∧
         Forall (λ r, ∃ payload, r = request_for this payload) new.
Proof.
  induction calls as [|[error context user] calls IH]; intros w Hi Hhook; simpl.
  - exists []. by rewrite app_nil_r.
  - destruct (never_throws_after this
      (Catcher.composed error user (merged_context this context w)) Hhook) as [payload Hstep].
    destruct (facade_send_issues this error context user w payload Hi Hstep)
      as (w' & -> & Hfetched & Hi').
    destruct (IH w' Hi' Hhook) as (new & Hnew & Hlen & Hall). simpl.
    exists (request_for this payload :: new).
    rewrite Hnew, Hfetched, <- (assoc_L (++)). split; [done|].
    split; [simpl; by rewrite Hlen|]. apply Forall_cons. split; [by eexists|done].
Qed.

(** C9: re-initialisation.  Two [init] calls with valid tokens both
    return normally; after the second the singleton is the instance built
    from the second input alone (its token, its endpoint, its context and
    its hook), and the facade's [send] is that instance's [send].  A
    facade send whose hook step returns issues exactly one request, to the
    second instance's endpoint and with the second token in its envelope.
    However many facade sends follow, the singleton stays and each request
    they issue goes to the second instance's endpoint; with no hook, or
    one that never throws, there is one such request for each send. *)
Theorem second_init_replaces_singleton settings1 settings2 token1 id1 token2 id2 w calls :
  token_of settings1 = Some token1 → valid_token token1 id1 →
  token_of settings2 = Some token2 → valid_token token2 id2 →
  ∃ w1 w2,
    HawkCatcher.init settings1 w = (Normal (), w1) ∧
    _instance w1 = Some (instance_for settings1 token1 id1) ∧
    HawkCatcher.init settings2 w1 = (Normal (), w2) ∧
    _instance w2 = Some (instance_for settings2 token2 id2) ∧
    This.token (instance_for settings2 token2 id2) = token2 ∧
    This.collectorEndpoint (instance_for settings2 token2 id2) =
      or_else (override_of settings2) ("https://" +:+ id2 +:+ ".k1.hawk.so/") ∧
    (∀ error context user,
       HawkCatcher.send error context user w2 =
       Catcher.send (instance_for settings2 token2 id2) error context user w2) ∧
    _instance (facade_sends calls w2) = Some (instance_for settings2 token2 id2) ∧
    (∃ new,
      fetched (facade_sends calls w2) = fetched w2 ++ new ∧
      Forall (λ r, url r = This.collectorEndpoint (instance_for settings2 token2 id2)) new) ∧
    (∀ error context user payload,
       after_beforeSend (instance_for settings2 token2 id2)
         (Catcher.composed error user
            (merged_context (instance_for settings2 token2 id2) context w2)) = Normal payload →
       ∃ w3,
         HawkCatcher.send error context user w2 = (Normal (), w3) ∧
         fetched w3 = fetched w2 ++ [{|
           url := or_else (override_of settings2) ("https://" +:+ id2 +:+ ".k1.hawk.so/");
           method := "POST";
           headers := [("Content-Type", "application/json")];
           body := JSON_stringify {|
             HawkEvent.token := token2;
             HawkEvent.catcherType := "errors/react-native";
             HawkEvent.payload := payload;
           |};
         |}]) ∧
    (never_throws (beforeSend_of settings2) →
     ∃ new,
       fetched (facade_sends calls w2) = fetched w2 ++ new ∧
       length new = length calls ∧
       Forall (λ r, url r = or_else (override_of settings2)
                                    ("https://" +:+ id2 +:+ ".k1.hawk.so/")) new).
Proof.
  intros Htok1 Hvalid1 Htok2 Hvalid2.
  eexists _, _.
  split; [by apply init_accepts|]. split; [done|].
  split; [by apply init_accepts|]. split; [done|].
  split; [done|]. split; [done|].
  split; [intros; by apply facade_send_delegates|].
  match goal with
  | |- _instance (facade_sends _ ?w2) = _ ∧ _ =>
      pose proof (facade_sends_route (instance_for settings2 token2 id2) calls w2 eq_refl)
        as [Hstays Hroute];
      pose proof (facade_sends_all_routed (instance_for settings2 token2 id2) calls w2 eq_refl)
        as Hall
  end.
  split; [exact Hstays|]. split; [exact Hroute|]. split.
  - intros error context user payload Hstep.
    pose proof (λ Hi, facade_send_issues (instance_for settings2 token2 id2) error context
                        user _ payload Hi Hstep) as Hissue.
    destruct (Hissue eq_refl) as (w3 & Hsend & Hfetched & _).
    exists w3. by split.
  - intros Hhook. destruct (Hall Hhook) as (new & Hnew & Hlen & Hrequests).
    exists new. split; [done|]. split; [done|].
    eapply Forall_impl; [exact Hrequests|]. by intros r [payload ->].
Qed.

(** C2, amended: endpoint resolution.  For a valid token, construction
    returns an instance whose endpoint is the override of the settings
    when there is one and it is not the empty string, and otherwise
    [https://{integrationId}.k1.hawk.so/] for the id the token decodes
    to. *)
Theorem constructor_resolves_endpoint settings token id w :
  token_of settings = Some token → valid_token token id →
  ∃ this w',
    Catcher.constructor settings w = (Normal this, w') ∧
    This.token this = token ∧
    This.collectorEndpoint this =
      match override_of settings with
      | Some endpoint =>
          if decide (endpoint = "") then "https://" +:+ id +:+ ".k1.hawk.so/" else endpoint
      | None => "https://" +:+ id +:+ ".k1.hawk.so/"
      end.
Proof.
  intros Htok Hvalid. eexists _, _.
  split; [by apply constructor_accepts|]. split; [done|]. simpl.
  destruct (override_of settings) as [endpoint|]; [|done]. simpl.
  destruct (decide (endpoint = "")) as [->|Hne]; [done|].
  by rewrite string_eqb_empty.
Qed.

(** C3, amended: rejected tokens.  For a token that is not the empty
    string and that the codec turns down (decoding throws, parsing the
    decoded text throws, or the parsed value has no non-empty
    [integrationId]), construction throws the error with the message
    [Invalid integration token], whatever the underlying error was; so
    does [init]; no instance is returned, no handler installed and no
    singleton set. *)
Theorem constructor_rejects_invalid_token settings token w :
  token_of settings = Some token → token ≠ "" → rejected_by_codec token →
  Catcher.constructor settings w = (Throw (new_Error "Invalid integration token"), w) ∧
  HawkCatcher.init settings w = (Throw (new_Error "Invalid integration token"), w).
Proof.
  intros Htok Hne Hrej.
  pose proof (constructor_rejects settings token w Htok Hne Hrej) as Hc.
  split; [done|]. by apply init_throws.
Qed.


End properties.

(** * The properties on concrete inputs

    Everything below runs on the reference host. *)

(** A send on an instance with a hook that does not throw. *)
Lemma send_never_raises_witness :
  never_throws (Some Example.redact) ∧
  ∃ w', Catcher.send
          (instance_for (inl (Example.settings (Some Example.token_abc) None (Some Example.redact)))
             Example.token_abc "abc")
          Example.type_error (Some 1) None Example.store = (Normal (), w') ∧
        length (fetched w') = 1.
Proof.
  assert (never_throws (Some Example.redact)) as Hhook.
  { intros payload. eexists. reflexivity. }
  split; [exact Hhook|].
  destruct (send_never_raises
              (instance_for
                 (inl (Example.settings (Some Example.token_abc) None (Some Example.redact)))
                 Example.token_abc "abc")
              Example.type_error (Some 1) None Example.store Hhook) as [Hsend _].
  exact Hsend.
Defined.

(** A hook that throws: the error reaches the caller of [send], and no
    request is issued. *)
Lemma send_raises_when_hook_throws :
  Catcher.send
    (instance_for (inl (Example.settings (Some Example.token_abc) None (Some Example.failing_hook)))
       Example.token_abc "abc")
    Example.type_error None None fresh_world
  = (Throw (new_Error "beforeSend failed"), with_heap [[]] fresh_world) ∧
  ¬ (∀ this error context user w,
       ∃ w', Catcher.send this error context user w = (Normal (), w')).
Proof.
  split; [vm_compute; reflexivity|].
  intros Hclaim.
  destruct (Hclaim
    (instance_for (inl (Example.settings (Some Example.token_abc) None (Some Example.failing_hook)))
       Example.token_abc "abc")
    Example.type_error None None fresh_world) as [w' Hsend].
  vm_compute in Hsend. discriminate Hsend.
Qed.

(** A valid token, without and with an override. *)
Lemma constructor_resolves_endpoint_witness :
  valid_token Example.token_abc "abc" ∧
  (∃ this w',
     Catcher.constructor (inr Example.token_abc) fresh_world = (Normal this, w') ∧
     This.token this = Example.token_abc ∧
     This.collectorEndpoint this = "https://abc.k1.hawk.so/") ∧
  (∃ this w',
     Catcher.constructor
       (inl (Example.settings (Some Example.token_abc) (Some "https://collector.example/") None))
       fresh_world = (Normal this, w') ∧
     This.token this = Example.token_abc ∧
     This.collectorEndpoint this = "https://collector.example/").
Proof.
  assert (valid_token Example.token_abc "abc") as Hvalid by valid_abc.
  split; [exact Hvalid|]. split.
  - apply (constructor_resolves_endpoint (inr Example.token_abc) Example.token_abc "abc"
             fresh_world eq_refl Hvalid).
  - apply (constructor_resolves_endpoint
             (inl (Example.settings (Some Example.token_abc) (Some "https://collector.example/") None))
             Example.token_abc "abc" fresh_world eq_refl Hvalid).
Defined.

(** An override that is the empty string is passed over: the endpoint is
    the one derived from the token. *)
Lemma empty_override_is_not_used :
  valid_token Example.token_abc "abc" ∧
  fst (Catcher.constructor
         (inl (Example.settings (Some Example.token_abc) (Some "") None)) fresh_world)
  = Normal {|
      This.token := Example.token_abc;
      This.collectorEndpoint := "https://abc.k1.hawk.so/";
      This.context := None;
      This.beforeSend := None;
    |} ∧
  ¬ (∀ settings token id w,
       token_of settings = Some token → valid_token token id →
       ∃ this w',
         Catcher.constructor settings w = (Normal this, w') ∧
         This.collectorEndpoint this =
           match override_of settings with
           | Some endpoint => endpoint
           | None => "https://" +:+ id +:+ ".k1.hawk.so/"
           end).
Proof.
  assert (valid_token Example.token_abc "abc") as Hvalid by valid_abc.
  split; [exact Hvalid|]. split; [vm_compute; reflexivity|].
  intros Hclaim.
  destruct (Hclaim (inl (Example.settings (Some Example.token_abc) (Some "") None))
              Example.token_abc "abc" fresh_world eq_refl Hvalid)
    as (this & w' & Hc & Hendpoint).
  vm_compute in Hc. injection Hc as <- _. discriminate Hendpoint.
Qed.

(** A token that does not decode to JSON, and one whose JSON has no
    [integrationId]. *)
Lemma constructor_rejects_invalid_token_witness :
  rejected_by_codec "not a token" ∧
  rejected_by_codec Example.token_without_id ∧
  (Catcher.constructor (inr "not a token") fresh_world
     = (Throw (new_Error "Invalid integration token"), fresh_world) ∧
   HawkCatcher.init (inr "not a token") fresh_world
     = (Throw (new_Error "Invalid integration token"), fresh_world)) ∧
  (Catcher.constructor (inr Example.token_without_id) fresh_world
     = (Throw (new_Error "Invalid integration token"), fresh_world) ∧
   HawkCatcher.init (inr Example.token_without_id) fresh_world
     = (Throw (new_Error "Invalid integration token"), fresh_world)).
Proof.
  assert (rejected_by_codec "not a token") as Hjson.
  { eapply not_json; [reflexivity | vm_compute; reflexivity]. }
  assert (rejected_by_codec Example.token_without_id) as Hid.
  { eapply no_integrationId; [reflexivity | vm_compute; reflexivity | exact I]. }
  split; [exact Hjson|]. split; [exact Hid|]. split.
  - apply (constructor_rejects_invalid_token (inr "not a token") "not a token" fresh_world
             eq_refl ltac:(discriminate) Hjson).
  - apply (constructor_rejects_invalid_token (inr Example.token_without_id)
             Example.token_without_id fresh_world eq_refl ltac:(discriminate) Hid).
Defined.

(** Three tokens the specification gets wrong.  The empty string is
    turned down by the codec, but construction reports it as a missing
    token.  A token that is not base64 is decoded all the same, the
    characters outside the alphabet being skipped, and accepted for the
    JSON it decodes to.  A token whose [integrationId] is the empty array
    is accepted too: [[]] is truthy, and renders as the empty string. *)
Lemma empty_and_malformed_tokens_escape :
  (rejected_by_codec "" ∧
   Catcher.constructor (inr "") fresh_world = (Throw MissingTokenError, fresh_world)) ∧
  (valid_base64 More.token_malformed = false ∧
   fst (Catcher.constructor (inr More.token_malformed) fresh_world)
     = Normal (This.mk More.token_malformed "https://abc.k1.hawk.so/" None None)) ∧
  (JSON_parse (Reference.base64_decode More.token_empty_array)
     = Normal (JObject [("integrationId", JArray [])]) ∧
   fst (Catcher.constructor (inr More.token_empty_array) fresh_world)
     = Normal (This.mk More.token_empty_array "https://.k1.hawk.so/" None None)) ∧
  ¬ (∀ settings token w,
       token_of settings = Some token →
       valid_base64 token = false ∨ rejected_by_codec token →
       Catcher.constructor settings w = (Throw (new_Error "Invalid integration token"), w)).
Proof.
  assert (rejected_by_codec "") as Hrej.
  { eapply not_json; [reflexivity | vm_compute; reflexivity]. }
  split; [split; [exact Hrej | vm_compute; reflexivity]|].
  split; [split; vm_compute; reflexivity|].
  split; [split; vm_compute; reflexivity|].
  intros Hclaim.
  pose proof (Hclaim (inr More.token_malformed) More.token_malformed fresh_world eq_refl
                (or_introl eq_refl)) as Hmalformed.
  vm_compute in Hmalformed. discriminate Hmalformed.
Qed.

(** The two example contexts, merged in a store that holds them. *)
Lemma getContext_merges_without_mutation_witness :
  let this := {|
    This.token := Example.token_abc;
    This.collectorEndpoint := "https://abc.k1.hawk.so/";
    This.context := Some 0;
    This.beforeSend := None;
  |} in
  allocated Example.store (Some 0) ∧ allocated Example.store (Some 1) ∧
  unique_keys Example.a1_b2 ∧ unique_keys Example.b3_c4 ∧
  ∃ contextMerged w',
    Catcher.getContext this (Some 1) Example.store = (Normal contextMerged, w') ∧
    heap Example.store !! contextMerged = None ∧
    is_Some (heap w' !! contextMerged) ∧
    (∀ k, k ≠ "__proto__" →
          Js.get k (properties (heap w') contextMerged) =
            merged_lookup Example.a1_b2 Example.b3_c4 k) ∧
    Js.get "__proto__" (properties (heap w') contextMerged) = None ∧
    (∀ l, l < 2 →
          heap w' !! l = heap Example.store !! l ∧
          prototypes w' !! l = prototypes Example.store !! l) ∧
    properties (heap w') 0 = Example.a1_b2 ∧
    properties (heap w') 1 = Example.b3_c4.
Proof.
  intros this.
  assert (allocated Example.store (Some 0)) as H0 by (simpl; lia).
  assert (allocated Example.store (Some 1)) as H1 by (simpl; lia).
  assert (unique_keys Example.a1_b2) as Hd.
  { apply (bool_decide_unpack _). vm_compute. exact I. }
  assert (unique_keys Example.b3_c4) as Hc.
  { apply (bool_decide_unpack _). vm_compute. exact I. }
  split; [exact H0|]. split; [exact H1|]. split; [exact Hd|]. split; [exact Hc|].
  apply (getContext_merges_without_mutation this (Some 1) Example.store H0 H1 Hd Hc).
Defined.

(** A call context with an own [__proto__] property, as [JSON.parse]
    builds one: the merged object gets [c] and no [__proto__], so not
    every key of the call's context is overlaid. *)
Lemma own_proto_key_is_not_copied :
  let this := This.mk Example.token_abc "https://abc.k1.hawk.so/" None None in
  allocated More.proto_store (Some 0) ∧ unique_keys More.proto1_c4 ∧
  Catcher.getContext this (Some 0) More.proto_store
    = (Normal 1, with_heap [More.proto1_c4; [("c", Example.four)]] fresh_world) ∧
  merged_lookup [] More.proto1_c4 "__proto__" = Some Example.one ∧
  ¬ (∀ this context w,
       allocated w (This.context this) → allocated w context →
       unique_keys (properties_of w (This.context this)) →
       unique_keys (properties_of w context) →
       ∃ contextMerged w',
         Catcher.getContext this context w = (Normal contextMerged, w') ∧
         ∀ k, Js.get k (properties (heap w') contextMerged) =
                merged_lookup (properties_of w (This.context this))
                              (properties_of w context) k).
Proof.
  intros this.
  assert (allocated More.proto_store (Some 0)) as H0 by (simpl; lia).
  assert (unique_keys More.proto1_c4) as Hc.
  { apply (bool_decide_unpack _). vm_compute. exact I. }
  split; [exact H0|]. split; [exact Hc|].
  split; [vm_compute; reflexivity|]. split; [reflexivity|].
  intros Hclaim.
  destruct (Hclaim this (Some 0) More.proto_store I H0 (NoDup_nil_2 : unique_keys []) Hc)
    as (contextMerged & w' & Hrun & Hget).
  vm_compute in Hrun. injection Hrun as <- <-.
  specialize (Hget "__proto__"). vm_compute in Hget. discriminate Hget.
Qed.

(** A default context whose own [__proto__] is [null] takes the merged
    object's prototype away, and with it the inherited setter: the
    [__proto__] of the call's context then becomes an own property. *)
Lemma null_prototype_lets_proto_through :
  let this := This.mk Example.token_abc "https://abc.k1.hawk.so/" (Some 0) None in
  Catcher.getContext this (Some 1) More.null_proto_store
    = (Normal 2,
       with_prototypes {[2 := NullPrototype]}
         (with_heap [More.proto_null; More.proto1_c4; More.proto1_c4] fresh_world)).
Proof. vm_compute. reflexivity. Qed.

(** A send with the redacting hook: the envelope carries the redacted
    payload. *)
Lemma send_puts_hook_result_in_envelope_witness :
  let this :=
    instance_for (inl (Example.settings (Some Example.token_abc) None (Some Example.redact)))
      Example.token_abc "abc" in
  let payload :=
    EventData.mk "[redacted]" (Some "TypeError") (Some [JString "at render (App.js:10:3)"])
      None (Some Example.b3_c4) (Some "1.0.0") in
  Example.redact (Catcher.composed Example.type_error None
                    (merged_context this (Some 1) Example.store)) = Normal payload ∧
  ∃ w',
    Catcher.send this Example.type_error (Some 1) None Example.store = (Normal (), w') ∧
    fetched w' = [{|
      url := "https://abc.k1.hawk.so/";
      method := "POST";
      headers := [("Content-Type", "application/json")];
      body := JSON_stringify (HawkEvent.mk Example.token_abc "errors/react-native" payload);
    |}].
Proof.
  intros this payload.
  assert (Example.redact (Catcher.composed Example.type_error None
            (merged_context this (Some 1) Example.store)) = Normal payload) as Hhook
    by (vm_compute; reflexivity).
  split; [exact Hhook|].
  apply (send_puts_hook_result_in_envelope this Example.type_error (Some 1) None
           Example.store payload Hhook).
Defined.

(** An uncaught [TypeError] after an [init] with global handling on. *)
Lemma uncaught_exception_sends_title_only_witness :
  let this := instance_for (inr Example.token_abc) Example.token_abc "abc" in
  let w := snd (HawkCatcher.init (inr Example.token_abc) fresh_world) in
  jsExceptionHandler w = Some (mkHandler this true) ∧
  ∃ w',
    uncaught_exception Example.type_error true w = (Normal (), w') ∧
    fetched w' = [{|
      url := "https://abc.k1.hawk.so/";
      method := "POST";
      headers := [("Content-Type", "application/json")];
      body := JSON_stringify
                (HawkEvent.mk Example.token_abc "errors/react-native"
                   (EventData.mk "TypeError" None None None None None));
    |}] ∧
    console w' = [console_log "Error" Example.type_error
                    (Some "at render (App.js:10:3)") true] ∧
    heap w' = [].
Proof.
  intros this w.
  assert (jsExceptionHandler w = Some (mkHandler this true)) as Hhandler
    by (vm_compute; reflexivity).
  split; [exact Hhandler|].
  apply (uncaught_exception_sends_title_only (mkHandler this true) Example.type_error true
           w Hhandler).
Defined.

(** The facade's [send] in the world no [init] has touched. *)
Lemma facade_send_before_init_is_noop_witness :
  _instance fresh_world = None ∧
  HawkCatcher.send Example.type_error None None fresh_world = (Normal (), fresh_world).
Proof.
  split; [reflexivity|].
  apply (facade_send_before_init_is_noop Example.type_error None None fresh_world eq_refl).
Defined.

(** Settings with an endpoint and a hook, but no token. *)
Lemma constructor_without_token_fails_witness :
  let settings := Example.settings None (Some "https://collector.example/") (Some Example.redact) in
  HawkNodeJSInitialSettings.token settings = None ∧
  Catcher.constructor (inl settings) fresh_world = (Throw MissingTokenError, fresh_world) ∧
  HawkCatcher.init (inl settings) fresh_world = (Throw MissingTokenError, fresh_world).
Proof.
  intros settings. split; [reflexivity|].
  apply (constructor_without_token_fails settings fresh_world eq_refl).
Defined.

(** Two [init] calls with the two example tokens, then two sends. *)
Lemma second_init_replaces_singleton_witness :
  let settings2 := inl (Example.settings (Some Example.token_prj9) None None) in
  let calls := [mkSendCall Example.type_error None None;
                mkSendCall (new_Error "again") None None] in
  valid_token Example.token_abc "abc" ∧ valid_token Example.token_prj9 "prj-9" ∧
  ∃ w1 w2,
    HawkCatcher.init (inr Example.token_abc) fresh_world = (Normal (), w1) ∧
    HawkCatcher.init settings2 w1 = (Normal (), w2) ∧
    _instance (facade_sends calls w2)
      = Some (This.mk Example.token_prj9 "https://prj-9.k1.hawk.so/" None None) ∧
    ∃ new,
      fetched (facade_sends calls w2) = fetched w2 ++ new ∧
      length new = 2 ∧
      Forall (λ r, url r = "https://prj-9.k1.hawk.so/") new.
Proof.
  intros settings2 calls.
  assert (valid_token Example.token_abc "abc") as Hv1 by valid_abc.
  assert (valid_token Example.token_prj9 "prj-9") as Hv2 by valid_prj9.
  split; [exact Hv1|]. split; [exact Hv2|].
  destruct (second_init_replaces_singleton (inr Example.token_abc) settings2
              Example.token_abc "abc" Example.token_prj9 "prj-9" fresh_world calls
              eq_refl Hv1 eq_refl Hv2)
    as (w1 & w2 & Hi1 & _ & Hi2 & _ & _ & _ & _ & Hinst & _ & _ & Hall).
  exists w1, w2. split; [exact Hi1|]. split; [exact Hi2|]. split; [exact Hinst|].
  exact (Hall I).
Defined.



(** * Properties beyond the specification *)

Section further_properties.
Context `{Host} `{EventPayload}.

(** ** The codec and the constructor *)

Lemma getIntegrationId_world token w r w' :
  Catcher.getIntegrationId token w = (r, w') → w' = w.
Proof.
  unfold Catcher.getIntegrationId, mbind, M_bind, call, throw, mret, M_ret.
  destruct (Buffer_from_base64_toString_utf8 token) as [text|e]; [|congruence].
  destruct (JSON_parse text) as [value|e]; [|congruence].
  destruct (get_property value "integrationId") as [[id|]|e]; [|congruence..].
  destruct (negb (ToBoolean id) || is_empty_string id); congruence.
Qed.

Lemma empty_string_is_falsy (v : Json) : is_empty_string v = true → ToBoolean v = false.
Proof.
  destruct v; simpl; try discriminate. intros ->. done.
Qed.

Lemma truthy_is_accepted (v : Json) :
  ToBoolean v = true → negb (ToBoolean v) || is_empty_string v = false.
Proof.
  intros Hv. rewrite Hv. simpl.
  destruct (is_empty_string v) eqn:He; [|done].
  apply empty_string_is_falsy in He. congruence.
Qed.

Lemma token_cases (settings : HawkNodeJSInitialSettings.t + string) :
  truthy (token_of settings) = false ∨
  ∃ token, token_of settings = Some token ∧ token ≠ "" ∧ truthy (token_of settings) = true.
Proof.
  destruct (token_of settings) as [token|] eqn:Htok; [|by left].
  destruct (decide (token = "")) as [->|Hne]; [by left|].
  right. exists token. by rewrite truthy_Some.
Qed.

Lemma or_else_nonempty (a : option string) (b : string) : b ≠ "" → or_else a b ≠ "".
Proof.
  intros Hb. destruct a as [s|]; simpl; [|done].
  destruct (String.eqb s "") eqn:Hs; [done|]. by apply String.eqb_neq.
Qed.

(** X1: how [getIntegrationId] ends.  It returns [id] exactly when the
    token decodes, the text parses, and the parsed value has an
    [integrationId] property that is truthy, of whatever JSON type; the
    value is returned as it is.  In every case, also when it throws, the
    world is left as it was. *)
Theorem getIntegrationId_returns_iff token w :
  (∀ id w',
     Catcher.getIntegrationId token w = (Normal id, w') ↔
     w' = w ∧ ToBoolean id = true ∧
     ∃ text value,
       Buffer_from_base64_toString_utf8 token = Normal text ∧
       JSON_parse text = Normal value ∧
       get_property value "integrationId" = Normal (Some id)) ∧
  (∀ e w', Catcher.getIntegrationId token w = (Throw e, w') → w' = w).
Proof.
  split; [|intros e w'; apply getIntegrationId_world].
  intros id w'. split.
  - intros Hrun. split; [by eapply getIntegrationId_world|].
    revert Hrun.
    unfold Catcher.getIntegrationId, mbind, M_bind, call, throw, mret, M_ret.
    destruct (Buffer_from_base64_toString_utf8 token) as [text|e] eqn:Hdec; [|discriminate].
    destruct (JSON_parse text) as [value|e] eqn:Hparse; [|discriminate].
    destruct (get_property value "integrationId") as [[id0|]|e] eqn:Hprop; [|discriminate..].
    destruct (negb (ToBoolean id0) || is_empty_string id0) eqn:Hguard; [discriminate|].
    intros [= -> _]. apply orb_false_iff in Hguard as [Htruthy _].
    apply negb_false_iff in Htruthy. split; [done|]. by exists text, value.
  - intros (-> & Htruthy & text & value & Hdec & Hparse & Hprop).
    unfold Catcher.getIntegrationId, mbind, M_bind, call, throw, mret, M_ret.
    by rewrite Hdec, Hparse, Hprop, truthy_is_accepted.
Qed.

(** A constructor that throws leaves the world as it was and throws one
    of two errors, by the token alone. *)
Lemma constructor_throws settings w e w' :
  Catcher.constructor settings w = (Throw e, w') →
  w' = w ∧
  (e = MissingTokenError ∧ truthy (token_of settings) = false ∨
   e = InvalidTokenError ∧ truthy (token_of settings) = true).
Proof.
  destruct (token_cases settings) as [Hfalsy | (token & Htok & Hne & Htruthy)].
  - rewrite (constructor_missing settings w Hfalsy). intros [= <- <-]. auto.
  - rewrite (constructor_with_token settings token w Htok Hne).
    destruct (Catcher.getIntegrationId token w) as [[id|e0] w1] eqn:Hid.
    + destruct (endpoint_for settings id); [discriminate|].
      apply getIntegrationId_world in Hid as ->. intros [= <- <-]. auto.
    + apply getIntegrationId_world in Hid as ->. intros [= <- <-]. auto.
Qed.

(** X2: an [init] that fails.  Whatever the host and the input, an
    [init] that throws leaves the world as it was: the singleton of an
    earlier [init] stays in place, no handler is installed, nothing is
    sent or logged.  It throws one of two errors: the missing-token error
    when the token is absent or the empty string, the generic
    invalid-token error in every other case. *)
Theorem init_failure_is_clean settings w e w' :
  HawkCatcher.init settings w = (Throw e, w') →
  w' = w ∧
  (e = MissingTokenError ∧ truthy (token_of settings) = false ∨
   e = InvalidTokenError ∧ truthy (token_of settings) = true).
Proof.
  unfold HawkCatcher.init, mbind, M_bind.
  destruct (Catcher.constructor settings w) as [[this|e0] w0] eqn:Hc.
  - unfold update. discriminate.
  - intros [= <- <-]. by apply constructor_throws.
Qed.

(** X3: a construction that succeeds.  The instance keeps the token as it
    was given, which is not empty, and the context reference and the
    hook of the settings; its endpoint is never the empty string; the
    integration id is the one [getIntegrationId] returns.  The world
    changes in the handler slot only, and only when global handling is
    on. *)
Theorem constructor_success_shape settings w this w' :
  Catcher.constructor settings w = (Normal this, w') →
  ∃ token id,
    token_of settings = Some token ∧ token ≠ "" ∧
    Catcher.getIntegrationId token w = (Normal id, w) ∧
    this = instance_with settings token id ∧
    This.collectorEndpoint this ≠ "" ∧
    w' = (if globalHandlingEnabled settings
          then with_jsExceptionHandler (Some (mkHandler this true)) w
          else w).
Proof.
  destruct (token_cases settings) as [Hfalsy | (token & Htok & Hne & _)].
  - by rewrite (constructor_missing settings w Hfalsy).
  - rewrite (constructor_with_token settings token w Htok Hne).
    destruct (Catcher.getIntegrationId token w) as [[id|e0] w1] eqn:Hid; [|discriminate].
    destruct (endpoint_for settings id); [|discriminate].
    pose proof (getIntegrationId_world _ _ _ _ Hid) as ->. intros [= <- <-].
    exists token, id. repeat split; [done..|].
    simpl. apply or_else_nonempty. discriminate.
Qed.

(** X4: the type of the id is not checked.  Take a non-empty token whose
    JSON has an [integrationId] that is truthy (a non-empty string, a
    non-zero number, [true], an array or an object).  With an override
    that is not empty, construction succeeds with that endpoint, and the
    id is never rendered.  Without one, construction succeeds when
    [ToString] renders the id, with the rendering as the host label of the
    endpoint, and throws the generic invalid-token error when [ToString]
    throws, which it does on an object with an own [toString]
    property. *)
Theorem constructor_accepts_any_truthy_id settings token text value id w :
  token_of settings = Some token → token ≠ "" →
  Buffer_from_base64_toString_utf8 token = Normal text →
  JSON_parse text = Normal value →
  get_property value "integrationId" = Normal (Some id) →
  ToBoolean id = true →
  (∀ endpoint, override_of settings = Some endpoint → endpoint ≠ "" →
     Catcher.constructor settings w =
       (Normal (instance_with settings token id),
        constructed_world settings (instance_with settings token id) w) ∧
     This.collectorEndpoint (instance_with settings token id) = endpoint) ∧
  (truthy (override_of settings) = false →
   ∀ rendering, ToString id = Normal rendering →
     Catcher.constructor settings w =
       (Normal (instance_with settings token id),
        constructed_world settings (instance_with settings token id) w) ∧
     This.collectorEndpoint (instance_with settings token id)
       = "https://" +:+ rendering +:+ ".k1.hawk.so/") ∧
  (truthy (override_of settings) = false →
   ∀ e, ToString id = Throw e →
     Catcher.constructor settings w = (Throw InvalidTokenError, w)).
Proof.
  intros Htok Hne Hdec Hparse Hprop Htruthy.
  assert (Catcher.getIntegrationId token w = (Normal id, w)) as Hid.
  { unfold Catcher.getIntegrationId, mbind, M_bind, call, throw, mret, M_ret.
    by rewrite Hdec, Hparse, Hprop, truthy_is_accepted. }
  rewrite (constructor_with_token settings token w Htok Hne), Hid.
  unfold endpoint_for, instance_with, rendered. simpl.
  split; [|split].
  - intros endpoint -> Hendpoint. simpl. by rewrite string_eqb_empty.
  - intros Hfalsy rendering ->. rewrite Hfalsy. split; [done|].
    destruct (override_of settings) as [s|] eqn:Hov; simpl in *; [|done].
    by rewrite Hfalsy.
  - by intros -> e ->.
Qed.

(** X5: the handler slot and the singleton are two things.  After an
    [init] with global handling on and a second [init] that switches it
    off, both with valid tokens, the singleton is the second instance but
    the handler in place is still the first one's: an uncaught exception
    is sent to the first endpoint with the first token, title only. *)
Theorem handler_outlives_reinit settings1 settings2 token1 id1 token2 id2 w error isFatal :
  token_of settings1 = Some token1 → valid_token token1 id1 →
  globalHandlingEnabled settings1 = true →
  token_of settings2 = Some token2 → valid_token token2 id2 →
  globalHandlingEnabled settings2 = false →
  ∃ w1 w2 w3,
    HawkCatcher.init settings1 w = (Normal (), w1) ∧
    HawkCatcher.init settings2 w1 = (Normal (), w2) ∧
    _instance w2 = Some (instance_for settings2 token2 id2) ∧
    jsExceptionHandler w2 = Some (mkHandler (instance_for settings1 token1 id1) true) ∧
    uncaught_exception error isFatal w2 = (Normal (), w3) ∧
    fetched w3 = fetched w ++ [{|
      url := This.collectorEndpoint (instance_for settings1 token1 id1);
      method := "POST";
      headers := [("Content-Type", "application/json")];
      body := JSON_stringify {|
        HawkEvent.token := token1;
        HawkEvent.catcherType := "errors/react-native";
        HawkEvent.payload := EventData.mk (name error) None None None None None;
      |};
    |}].
Proof.
  intros Htok1 Hvalid1 Hon Htok2 Hvalid2 Hoff.
  eexists _, _, _.
  split; [by apply init_accepts|].
  split; [by apply init_accepts|].
  unfold constructed_world. rewrite Hon, Hoff. simpl.
  split; [done|]. split; [done|].
  unfold uncaught_exception, mbind, M_bind, read. simpl. done.
Qed.

(** ** Key order of the merged context *)

Lemma goes_before_irrefl k : goes_before k k = false.
Proof. unfold goes_before. destruct (array_index k); [apply N.ltb_irrefl|done]. Qed.

Lemma goes_before_trans a b c :
  goes_before a b = true → goes_before b c = true → goes_before a c = true.
Proof.
  unfold goes_before.
  destruct (array_index a), (array_index b), (array_index c); try done.
  rewrite !N.ltb_lt. lia.
Qed.

Lemma goes_before_index k k' : goes_before k k' = true → array_index k ≠ None.
Proof. unfold goes_before. by destruct (array_index k). Qed.

Lemma elem_of_keys_set x k v (o : obj) : x ∈ keys (Js.set k v o) ↔ x = k ∨ x ∈ keys o.
Proof.
  rewrite <- !get_Some_elem_of, get_set.
  destruct (String.eqb x k) eqn:Hx.
  - apply String.eqb_eq in Hx. split; [by left|by eexists].
  - apply String.eqb_neq in Hx. split; [by right|by intros [?|?]].
Qed.

(** Defining a property keeps an object well formed: one entry per key,
    in JavaScript's order. *)
Lemma set_unique_ordered k v (o : obj) :
  unique_keys o → js_ordered o → unique_keys (Js.set k v o) ∧ js_ordered (Js.set k v o).
Proof.
  unfold unique_keys, js_ordered. induction o as [|[k0 v0] o IH]; intros Hu Ho.
  - split; [apply NoDup_singleton | repeat constructor].
  - pose proof (elem_of_keys_set) as Hset. unfold keys in *.
    cbn [Js.set]. rewrite fmap_cons in Hu, Ho. cbn [fst] in Hu, Ho.
    apply NoDup_cons in Hu as [Hk0 Hu]. apply StronglySorted_cons in Ho as [Hall Ho].
    rewrite Forall_forall in Hall.
    destruct (String.eqb k k0) eqn:Heq.
    + rewrite fmap_cons. cbn [fst].
      split; [by apply NoDup_cons | apply StronglySorted_cons; by rewrite Forall_forall].
    + apply String.eqb_neq in Heq. destruct (goes_before k k0) eqn:Hgb.
      * rewrite !fmap_cons. cbn [fst].
        assert (k ∉ o.*1) as Hk by (intros Hin; specialize (Hall k Hin); congruence).
        split.
        -- apply NoDup_cons. split; [by apply not_elem_of_cons|by apply NoDup_cons].
        -- apply StronglySorted_cons. split; [|apply StronglySorted_cons; by rewrite Forall_forall].
           apply Forall_cons. split.
           ++ destruct (goes_before k0 k) eqn:Hback; [|done].
              pose proof (goes_before_trans _ _ _ Hback Hgb) as Hrefl.
              by rewrite goes_before_irrefl in Hrefl.
           ++ apply Forall_forall. intros x Hx.
              destruct (goes_before x k) eqn:Hxk; [|done].
              pose proof (goes_before_trans _ _ _ Hxk Hgb) as Hx0.
              specialize (Hall x Hx). congruence.
      * rewrite fmap_cons. cbn [fst]. destruct (IH Hu Ho) as [IHu IHo]. split.
        -- apply NoDup_cons. split; [|done].
           intros Hin. apply Hset in Hin as [?|?]; congruence.
        -- apply StronglySorted_cons. split; [|done].
           apply Forall_forall. intros x Hx. apply Hset in Hx as [->|Hx]; [done|by apply Hall].
Qed.

Lemma put_unique_ordered k v (o : Object) :
  unique_keys (own o) → js_ordered (own o) →
  unique_keys (own (put k v o)) ∧ js_ordered (own (put k v o)).
Proof.
  intros Hu Ho. unfold put.
  destruct (Js.get k (own o)); [by apply set_unique_ordered|].
  destruct (String.eqb k "__proto__" && inherits_proto_accessor (prototype o));
    [done|by apply set_unique_ordered].
Qed.

Lemma assign_props_unique_ordered (source : obj) : ∀ target : Object,
  unique_keys (own target) → js_ordered (own target) →
  unique_keys (own (assign_props target source)) ∧
  js_ordered (own (assign_props target source)).
Proof.
  unfold assign_props.
  induction source as [|[k v] source IH]; intros target Hu Ho; simpl; [done|].
  destruct (put_unique_ordered k v target Hu Ho) as [Hu' Ho']. by apply IH.
Qed.

(** Writing to a key the object has changes no key. *)
Lemma keys_set_present k v (o : obj) :
  k ∈ keys o → js_ordered o → keys (Js.set k v o) = keys o.
Proof.
  unfold js_ordered, keys. induction o as [|[k0 v0] o IH]; intros Hk Ho.
  - by apply elem_of_nil in Hk.
  - cbn [Js.set]. rewrite fmap_cons in Hk, Ho. cbn [fst] in Hk, Ho.
    apply StronglySorted_cons in Ho as [Hall Ho]. rewrite Forall_forall in Hall.
    destruct (String.eqb k k0) eqn:Heq; [by rewrite !fmap_cons|].
    apply String.eqb_neq in Heq. apply elem_of_cons in Hk as [?|Hk]; [done|].
    rewrite (Hall k Hk), !fmap_cons. cbn [fst]. by rewrite IH.
Qed.

(** A new key joins the ordinary keys at their end if it is one of them,
    and leaves them alone if it is an array index or [__proto__]. *)
Lemma ordinary_keys_set_new k v (o : obj) :
  k ∉ keys o →
  filter ordinary_key (keys (Js.set k v o)) =
    if decide (ordinary_key k) then filter ordinary_key (keys o) ++ [k]
    else filter ordinary_key (keys o).
Proof.
  unfold keys. induction o as [|[k0 v0] o IH]; intros Hk.
  - change (filter ordinary_key [k] =
            if decide (ordinary_key k) then filter ordinary_key [] ++ [k]
            else filter ordinary_key []).
    rewrite filter_cons, filter_nil. by destruct (decide (ordinary_key k)).
  - cbn [Js.set]. rewrite fmap_cons in Hk. cbn [fst] in Hk.
    apply not_elem_of_cons in Hk as [Hne Hk].
    apply String.eqb_neq in Hne as ->.
    destruct (goes_before k k0) eqn:Hgb.
    + apply goes_before_index in Hgb.
      rewrite (fmap_cons _ (k, v)). cbn [fst]. rewrite filter_cons.
      rewrite !decide_False by (by intros [? ?]). done.
    + rewrite !fmap_cons. cbn [fst]. rewrite !filter_cons, IH by done.
      by destruct (decide (ordinary_key k)), (decide (ordinary_key k0)).
Qed.

Lemma filter_ext_elem_of (P Q : string → Prop) `{∀ x, Decision (P x)} `{∀ x, Decision (Q x)}
    (l : list string) :
  (∀ x, x ∈ l → P x ↔ Q x) → filter P l = filter Q l.
Proof.
  induction l as [|x l IH]; intros Hiff; [done|].
  rewrite !filter_cons, IH by (intros y Hy; apply Hiff; by right).
  destruct (decide (P x)) as [HP|HP], (decide (Q x)) as [HQ|HQ]; try done.
  - exfalso. apply HQ, Hiff; [by left|done].
  - exfalso. apply HP, Hiff; [by left|done].
Qed.

(** The ordinary keys after [Object.assign]: the target's, then the
    source's new ones, each in its own order. *)
Lemma ordinary_keys_assign_props (source : obj) : ∀ target : Object,
  unique_keys source → unique_keys (own target) → js_ordered (own target) →
  filter ordinary_key (keys (own (assign_props target source))) =
    filter ordinary_key (keys (own target)) ++
    filter (λ k, ordinary_key k ∧ k ∉ keys (own target)) (keys source).
Proof.
  unfold assign_props.
  induction source as [|[k v] source IH]; intros target Hs Hu Ho.
  - simpl. by rewrite filter_nil, app_nil_r.
  - unfold unique_keys in Hs. rewrite fmap_cons in Hs. cbn [fst] in Hs.
    apply NoDup_cons in Hs as [Hfresh Hs].
    cbn [fold_left fst snd]. destruct (put_unique_ordered k v target Hu Ho) as [Hu' Ho'].
    change (keys ((k, v) :: source)) with (k :: keys source).
    rewrite (IH _ Hs Hu' Ho'), filter_cons. unfold put.
    destruct (Js.get k (own target)) eqn:Hget.
    + assert (k ∈ keys (own target)) as Hin by (apply get_Some_elem_of; by eexists).
      cbn [own]. rewrite (keys_set_present k v (own target) Hin Ho).
      by rewrite decide_False by (by intros [_ ?]).
    + assert (k ∉ keys (own target)) as Hout.
      { intros Hin. apply get_Some_elem_of in Hin as [? ?]. congruence. }
      destruct (String.eqb k "__proto__" && inherits_proto_accessor (prototype target))
        eqn:Hset; cbn [own].
      * apply andb_true_iff in Hset as [Hproto _]. apply String.eqb_eq in Hproto.
        by rewrite decide_False by (by intros [[_ ?] _]).
      * rewrite (ordinary_keys_set_new k v (own target) Hout).
        assert (filter (λ x, ordinary_key x ∧ x ∉ keys (Js.set k v (own target)))
                       (keys source) =
                filter (λ x, ordinary_key x ∧ x ∉ keys (own target)) (keys source)) as ->.
        { apply filter_ext_elem_of. intros x Hx. rewrite elem_of_keys_set.
          split; [intros [? Hn]; split; [done|]; intros ?; apply Hn; by right|].
          intros [? Hn]. split; [done|]. intros [->|?]; [done|by apply Hn]. }
        destruct (decide (ordinary_key k)) as [Hord|Hord].
        -- rewrite decide_True by done. by rewrite <- (assoc_L (++)).
        -- by rewrite decide_False by (by intros [? _]).
Qed.

Lemma set_last k v (o : obj) :
  k ∉ keys o → Forall (λ k', goes_before k k' = false) (keys o) →
  Js.set k v o = o ++ [(k, v)].
Proof.
  unfold keys. induction o as [|[k0 v0] o IH]; intros Hk Hall; [done|].
  rewrite fmap_cons in Hk, Hall. cbn [fst] in Hk, Hall.
  apply not_elem_of_cons in Hk as [Hne Hk]. apply Forall_cons in Hall as [Hgb Hall].
  cbn [Js.set]. apply String.eqb_neq in Hne as ->. rewrite Hgb.
  by rewrite IH.
Qed.

(** [Object.assign] of properties that continue a well-formed listing
    appends them as they are. *)
Lemma assign_props_in_order (source : obj) : ∀ target : Object,
  unique_keys (own target ++ source) → js_ordered (own target ++ source) →
  "__proto__" ∉ keys source →
  assign_props target source = mkObject (prototype target) (own target ++ source).
Proof.
  unfold assign_props, unique_keys, js_ordered, keys.
  induction source as [|[k v] source IH]; intros target Hu Ho Hp.
  - rewrite app_nil_r. by destruct target.
  - rewrite fmap_cons in Hp. cbn [fst] in Hp. apply not_elem_of_cons in Hp as [Hproto Hp].
    assert (k ∉ (own target).*1) as Hk.
    { rewrite fmap_app, fmap_cons in Hu. apply NoDup_app in Hu as (_ & Hdisj & _).
      intros Hin. apply (Hdisj k Hin). by left. }
    assert (Forall (λ k', goes_before k k' = false) (own target).*1) as Hall.
    { rewrite fmap_app, fmap_cons in Ho. apply Forall_forall. intros x Hx.
      apply (StronglySorted_app_1_elem_of _ _ _ x k Ho Hx). by left. }
    cbn [fold_left fst snd].
    rewrite put_other, (set_last k v (own target) Hk Hall) by congruence.
    rewrite IH; cbn [prototype own]; [by rewrite <- (assoc_L (++))| | |done];
      by rewrite <- (assoc_L (++)).
Qed.

Lemma assign_props_copy (o : obj) :
  unique_keys o → js_ordered o → "__proto__" ∉ keys o →
  assign_props (mkObject ObjectPrototype []) o = mkObject ObjectPrototype o.
Proof. intros Hu Ho Hp. by rewrite assign_props_in_order. Qed.

Lemma elem_of_keys_assign_props k (source : obj) (target : Object) :
  k ≠ "__proto__" → unique_keys source →
  k ∈ keys (own (assign_props target source)) ↔ k ∈ keys (own target) ∨ k ∈ keys source.
Proof.
  intros Hk Hs. rewrite <- !get_Some_elem_of, (get_assign_props k source target Hk Hs).
  unfold merged_lookup. destruct (Js.get k source); [|].
  - split; [by right|by eexists].
  - split; [by left|]. intros [?|[? ?]]; done.
Qed.

Lemma merged_context_allocated this context w :
  allocated w (This.context this) → allocated w context →
  merged_context this context w =
    merged_props (properties_of w (This.context this)) (properties_of w context).
Proof.
  intros Hd Hc. unfold merged_context.
  rewrite (getContext_allocated this context w Hd Hc).
  cbn [heap with_heap with_prototypes]. apply properties_last.
Qed.

(** X6: the keys of the merged context.  With both contexts allocated and
    holding one entry per key, the object [getContext] returns has one
    entry per key, listed in JavaScript's order: the array indices first,
    ascending, then the other keys.  Apart from [__proto__] its keys are
    those of the two contexts; [__proto__] is among them only when the
    call's context has it and the default context's [__proto__] has cut
    the object off from the inherited setter.  Among the keys that are
    neither array indices nor [__proto__], the default context's come
    first, in their order, then the ones only the call's context has, in
    theirs. *)
Theorem getContext_key_order this context w :
  allocated w (This.context this) → allocated w context →
  unique_keys (properties_of w (This.context this)) →
  unique_keys (properties_of w context) →
  ∃ contextMerged w',
    Catcher.getContext this context w = (Normal contextMerged, w') ∧
    unique_keys (properties (heap w') contextMerged) ∧
    js_ordered (properties (heap w') contextMerged) ∧
    (∀ k, k ≠ "__proto__" →
          (k ∈ keys (properties (heap w') contextMerged) ↔
           k ∈ keys (properties_of w (This.context this)) ∨
           k ∈ keys (properties_of w context))) ∧
    ("__proto__" ∈ keys (properties (heap w') contextMerged) ↔
     inherits_proto_accessor (prototype_after (properties_of w (This.context this))) = false ∧
     "__proto__" ∈ keys (properties_of w context)) ∧
    filter ordinary_key (keys (properties (heap w') contextMerged)) =
      filter ordinary_key (keys (properties_of w (This.context this))) ++
      filter (λ k, ordinary_key k ∧ k ∉ keys (properties_of w (This.context this)))
             (keys (properties_of w context)).
Proof.
  intros Hd Hc Hud Huc. eexists _, _.
  split; [by apply getContext_allocated|].
  cbn [heap with_heap with_prototypes]. rewrite properties_last.
  set (D := properties_of w (This.context this)) in *.
  set (C := properties_of w context) in *.
  set (empty := mkObject ObjectPrototype []).
  assert (unique_keys (own empty) ∧ js_ordered (own empty)) as [Hu0 Ho0].
  { split; [apply NoDup_nil_2 | constructor]. }
  destruct (assign_props_unique_ordered D empty Hu0 Ho0) as [HuD HoD].
  destruct (assign_props_unique_ordered C _ HuD HoD) as [HuM HoM].
  split; [exact HuM|]. split; [exact HoM|]. split; [|split].
  - intros k Hk. unfold merged_object. fold empty.
    rewrite (elem_of_keys_assign_props k C _ Hk Huc),
            (elem_of_keys_assign_props k D empty Hk Hud).
    split; [intros [[Hin|?]|?]; [by apply elem_of_nil in Hin|auto..]|].
    intros [?|?]; auto.
  - rewrite <- !get_Some_elem_of.
    fold (merged_props D C). rewrite (merged_object_proto D C Hud Huc).
    destruct (inherits_proto_accessor (prototype_after D)).
    + split; [by intros [? ?]|by intros [? _]].
    + split; [done|by intros [_ ?]].
  - unfold merged_object. fold empty.
    rewrite (ordinary_keys_assign_props C _ Huc HuD HoD),
            (ordinary_keys_assign_props D empty Hud Hu0 Ho0).
    change (keys (own empty)) with (@nil string). rewrite filter_nil, app_nil_l. f_equal.
    + apply filter_ext_elem_of. intros x _. split; [by intros [? _]|].
      intros Hx. split; [done|]. apply not_elem_of_nil.
    + apply filter_ext_elem_of. intros x _.
      split; intros [[Hi Hp] Hn]; (split; [done|]); intros Hin; apply Hn.
      * apply (elem_of_keys_assign_props x D empty Hp Hud). by right.
      * apply (elem_of_keys_assign_props x D empty Hp Hud) in Hin as [Hin|Hin];
          [by apply elem_of_nil in Hin|done].
Qed.

(** Contexts that continue each other merge into their concatenation,
    with the prototype [{}] has. *)
Lemma merged_object_in_order (D C : obj) :
  unique_keys (D ++ C) → js_ordered (D ++ C) → "__proto__" ∉ keys (D ++ C) →
  merged_object D C = mkObject ObjectPrototype (D ++ C).
Proof.
  intros Hu Ho Hp. unfold merged_object.
  rewrite assign_props_copy.
  - rewrite assign_props_in_order; [done..|].
    unfold keys in *. rewrite fmap_app in Hp. intros Hin. apply Hp, elem_of_app. by right.
  - unfold unique_keys in *. rewrite fmap_app in Hu. by apply NoDup_app in Hu as (? & _ & _).
  - unfold js_ordered, keys in *. rewrite fmap_app in Ho.
    by apply StronglySorted_app_1_l in Ho.
  - unfold keys in *. rewrite fmap_app in Hp. intros Hin. apply Hp, elem_of_app. by left.
Qed.

(** X7: contexts that continue each other.  With both contexts
    allocated, when the default context's properties followed by the
    call's are a well-formed listing (no key twice, in JavaScript's order,
    no own [__proto__]), the merged object is exactly that listing.  So
    without a call context it is a copy of the default context, property
    for property, and without a default context a copy of the call's. *)
Theorem getContext_concatenates_disjoint_contexts this context w :
  allocated w (This.context this) → allocated w context →
  unique_keys (properties_of w (This.context this) ++ properties_of w context) →
  js_ordered (properties_of w (This.context this) ++ properties_of w context) →
  "__proto__" ∉ keys (properties_of w (This.context this) ++ properties_of w context) →
  ∃ contextMerged w',
    Catcher.getContext this context w = (Normal contextMerged, w') ∧
    properties (heap w') contextMerged =
      properties_of w (This.context this) ++ properties_of w context ∧
    (context = None →
     properties (heap w') contextMerged = properties_of w (This.context this)) ∧
    (This.context this = None →
     properties (heap w') contextMerged = properties_of w context).
Proof.
  intros Hd Hc Hu Ho Hp. eexists _, _.
  split; [by apply getContext_allocated|].
  cbn [heap with_heap with_prototypes]. rewrite properties_last.
  rewrite (merged_object_in_order _ _ Hu Ho Hp). cbn [own].
  split; [done|]. split.
  - intros ->. simpl. by rewrite app_nil_r.
  - by intros ->.
Qed.

(** ** Sends and the store *)

Lemma properties_of_prefix (w w1 : World) (l : option loc) :
  heap w `prefix_of` heap w1 → allocated w l → properties_of w1 l = properties_of w l.
Proof.
  intros [extra Hextra] Hl. destruct l as [l|]; [|done]. simpl in *.
  unfold properties. by rewrite Hextra, lookup_app_l.
Qed.

Lemma allocated_prefix (w w1 : World) (l : option loc) :
  heap w `prefix_of` heap w1 → allocated w l → allocated w1 l.
Proof.
  intros [extra Hextra] Hl. destruct l as [l|]; [|done]. simpl in *.
  rewrite Hextra, length_app. lia.
Qed.

(** One send with both references allocated: a new object with the
    merged properties goes on the store, and the hook step decides
    between a request and a throw. *)
Lemma send_allocated this error context user w :
  allocated w (This.context this) → allocated w context →
  Catcher.send this error context user w =
    let merged := merged_object (properties_of w (This.context this))
                                (properties_of w context) in
    match after_beforeSend this (Catcher.composed error user (own merged)) with
    | Normal payload =>
        (Normal (),
         with_fetched (fetched w ++ [request_for this payload]) (with_new_object merged w))
    | Throw e => (Throw e, with_new_object merged w)
    end.
Proof.
  intros Hd Hc. unfold Catcher.send, Catcher.formatAndSend, after_beforeSend.
  rewrite (bind_normal _ _ _ _ _ (getContext_allocated this context w Hd Hc)).
  unfold mbind, M_bind, read, call, mret, M_ret. simpl. rewrite properties_last.
  destruct (This.beforeSend this) as [hook|]; [|done].
  by destruct (hook _).
Qed.

(** X8: sends keep no history.  With the references allocated, a send
    adds one object to the store, the merged context, and leaves every
    earlier object as it was, whether the hook returns or throws; so the
    context merged for any later call is what it would have been before
    this one. *)
Theorem send_only_allocates this error context user w :
  allocated w (This.context this) → allocated w context →
  heap (snd (Catcher.send this error context user w)) =
    heap w ++ [merged_props (properties_of w (This.context this)) (properties_of w context)] ∧
  ∀ later, allocated w later →
    merged_context this later (snd (Catcher.send this error context user w)) =
    merged_context this later w.
Proof.
  intros Hd Hc.
  assert (heap (snd (Catcher.send this error context user w)) =
          heap w ++ [merged_props (properties_of w (This.context this))
                                  (properties_of w context)]) as Hheap.
  { rewrite (send_allocated this error context user w Hd Hc). cbv zeta.
    by destruct (after_beforeSend _ _). }
  split; [exact Hheap|]. intros later Hlater.
  assert (heap w `prefix_of` heap (snd (Catcher.send this error context user w))) as Hprefix.
  { rewrite Hheap. by apply prefix_app_r. }
  rewrite !merged_context_allocated by eauto using allocated_prefix.
  by rewrite !(properties_of_prefix w _ _ Hprefix).
Qed.

Lemma requests_of_call_prefix this (w w1 : World) c :
  heap w `prefix_of` heap w1 →
  allocated w (This.context this) → allocated w (call_context c) →
  requests_of_call this w1 c = requests_of_call this w c.
Proof.
  intros Hprefix Hd Hc. unfold requests_of_call, composed_for.
  by rewrite !(properties_of_prefix w w1 _ Hprefix).
Qed.

Lemma facade_sends_requests_from this calls w : ∀ w1,
  heap w `prefix_of` heap w1 →
  _instance w1 = Some this →
  allocated w (This.context this) →
  Forall (λ c, allocated w (call_context c)) calls →
  fetched (facade_sends calls w1) = fetched w1 ++ flat_map (requests_of_call this w) calls.
Proof.
  induction calls as [|[error context user] calls IH]; intros w1 Hprefix Hi Hd Hcalls; simpl.
  - by rewrite app_nil_r.
  - apply Forall_cons in Hcalls as [Hc Hcalls]. simpl in Hc.
    rewrite (facade_send_delegates _ _ _ _ _ Hi).
    pose proof (send_allocated this error context user w1
                  (allocated_prefix _ _ _ Hprefix Hd) (allocated_prefix _ _ _ Hprefix Hc))
      as Hsend. cbv zeta in Hsend.
    rewrite <- (requests_of_call_prefix this w w1 (mkSendCall error context user) Hprefix Hd Hc).
    unfold requests_of_call at 1, composed_for. simpl.
    destruct (after_beforeSend _ _) as [payload|e]; rewrite Hsend; cbn [snd].
    + rewrite IH; [simpl; by rewrite <- (assoc_L (++))| |done..].
      simpl. etrans; [exact Hprefix|]. by apply prefix_app_r.
    + rewrite IH; [done| |done..].
      simpl. etrans; [exact Hprefix|]. by apply prefix_app_r.
Qed.

(** X9: what a run of facade sends puts on the wire.  With a singleton in
    place and the references allocated, the requests are issued in call
    order, one for each call whose hook step returns and none for a call
    whose hook throws; each request is the one its call would have issued
    on its own in the starting world: nothing is batched, dropped as a
    duplicate, or carried over from one call to the next. *)
Theorem facade_sends_requests this calls w :
  _instance w = Some this →
  allocated w (This.context this) →
  Forall (λ c, allocated w (call_context c)) calls →
  fetched (facade_sends calls w) = fetched w ++ flat_map (requests_of_call this w) calls ∧
  (never_throws (This.beforeSend this) →
   length (fetched (facade_sends calls w)) = length (fetched w) + length calls).
Proof.
  intros Hi Hd Hcalls.
  pose proof (facade_sends_requests_from this calls w w (reflexivity _) Hi Hd Hcalls) as Hreq.
  split; [exact Hreq|]. intros Hhook. rewrite Hreq, length_app. f_equal.
  clear Hreq Hcalls. induction calls as [|c calls IH]; [done|].
  simpl. rewrite length_app, IH. unfold requests_of_call.
  by destruct (never_throws_after this (composed_for this w c) Hhook) as [p ->].
Qed.

(** X10: a hook that throws.  When the [beforeSend] hook throws on the
    composed payload, [send] throws that very error, and so does the
    facade's [send] when the instance is the singleton; no request is
    issued and nothing is logged, and the singleton and the handler stay
    as they were. *)
Theorem send_rethrows_hook_error this hook error context user w e :
  This.beforeSend this = Some hook →
  hook (Catcher.composed error user (merged_context this context w)) = Throw e →
  ∃ w',
    Catcher.send this error context user w = (Throw e, w') ∧
    (_instance w = Some this → HawkCatcher.send error context user w = (Throw e, w')) ∧
    fetched w' = fetched w ∧ console w' = console w ∧
    _instance w' = _instance w ∧ jsExceptionHandler w' = jsExceptionHandler w.
Proof.
  intros Hhook Hthrow.
  destruct (formatAndSend_run this error context user w) as [h Hrun].
  unfold after_beforeSend in Hrun. rewrite Hhook, Hthrow in Hrun.
  exists (with_store h w). unfold Catcher.send. rewrite Hrun.
  split; [done|]. split; [|done].
  intros Hi. rewrite (facade_send_delegates _ _ _ _ _ Hi). exact Hrun.
Qed.

(** X11: after the request has settled.  Whatever the outcome, the
    promise of [sendErrorFormatted] is fulfilled and no new request is
    issued (nothing is retried); the store, the singleton and the handler
    are untouched.  A response leaves the world as it was whatever its
    status, so an HTTP error status is not logged; a rejection adds
    exactly one [console.error] line, which ends with the error's
    [toString]. *)
Theorem settled_delivery_is_final outcome w :
  ∃ w',
    Catcher.sendErrorFormatted_settled outcome w = (fulfilled, w') ∧
    fetched w' = fetched w ∧ heap w' = heap w ∧
    _instance w' = _instance w ∧ jsExceptionHandler w' = jsExceptionHandler w ∧
    match outcome with
    | fetch_resolved _ => w' = w
    | fetch_rejected err =>
        console w' = console w ++
          [console_error ("[Hawk] Cannot send an event because of " +:+ Error_toString err)]
    end.
Proof.
  rewrite sendErrorFormatted_settled_fulfilled. eexists. split; [done|].
  destruct outcome as [status|err]; simpl; by repeat split.
Qed.

(** X12: the test event.  With the default context allocated and well
    formed (one entry per key, in JavaScript's order, no own
    [__proto__]), [test] composes the payload for the error
    [new Error('Hawk NodeJS Catcher test message')], which carries the
    stack the engine gives it, with no user and with a copy of the default
    context as its context ([{}] when there is none), runs the hook step
    on it, and issues one request for the result. *)
Theorem test_sends_default_context this w :
  allocated w (This.context this) →
  unique_keys (properties_of w (This.context this)) →
  js_ordered (properties_of w (This.context this)) →
  "__proto__" ∉ keys (properties_of w (This.context this)) →
  Catcher.test this w =
    match after_beforeSend this
            (Catcher.composed (new_Error "Hawk NodeJS Catcher test message") None
               (properties_of w (This.context this))) with
    | Normal payload =>
        (Normal (),
         with_fetched (fetched w ++ [request_for this payload])
           (with_new_object (mkObject ObjectPrototype (properties_of w (This.context this))) w))
    | Throw e =>
        (Throw e,
         with_new_object (mkObject ObjectPrototype (properties_of w (This.context this))) w)
    end.
Proof.
  intros Hd Hud Hod Hpd. unfold Catcher.test.
  rewrite (send_allocated this _ None None w Hd I). cbv zeta.
  change (properties_of w None) with (@nil (string * Json)).
  rewrite merged_object_in_order; rewrite ?app_nil_r; done.
Qed.

End further_properties.

(** * The further properties on concrete inputs *)

(** A re-[init] with a token that does not decode, after a good one: the
    first singleton stays. *)
Lemma init_failure_is_clean_witness :
  let w := snd (HawkCatcher.init (inr Example.token_abc) fresh_world) in
  HawkCatcher.init (inr "not a token") w = (Throw InvalidTokenError, w) ∧
  _instance w = Some (This.mk Example.token_abc "https://abc.k1.hawk.so/" None None) ∧
  (InvalidTokenError = MissingTokenError ∧ truthy (Some "not a token") = false ∨
   InvalidTokenError = InvalidTokenError ∧ truthy (Some "not a token") = true).
Proof.
  intros w.
  assert (HawkCatcher.init (inr "not a token") w = (Throw InvalidTokenError, w)) as Hinit
    by (vm_compute; reflexivity).
  split; [exact Hinit|]. split; [vm_compute; reflexivity|].
  apply (init_failure_is_clean (inr "not a token") w InvalidTokenError w Hinit).
Defined.

(** A construction with an empty override and global handling on. *)
Lemma constructor_success_shape_witness :
  let settings := inl (Example.settings (Some Example.token_abc) (Some "") None) in
  let this := This.mk Example.token_abc "https://abc.k1.hawk.so/" None None in
  let w' := with_jsExceptionHandler (Some (mkHandler this true)) fresh_world in
  Catcher.constructor settings fresh_world = (Normal this, w') ∧
  ∃ token id,
    token_of settings = Some token ∧ token ≠ "" ∧
    Catcher.getIntegrationId token fresh_world = (Normal id, fresh_world) ∧
    this = instance_with settings token id ∧
    This.collectorEndpoint this ≠ "" ∧
    w' = with_jsExceptionHandler (Some (mkHandler this true)) fresh_world.
Proof.
  intros settings this w'.
  assert (Catcher.constructor settings fresh_world = (Normal this, w')) as Hc
    by (vm_compute; reflexivity).
  split; [exact Hc|].
  apply (constructor_success_shape settings fresh_world this w' Hc).
Defined.

(** A token whose [integrationId] is the number 42, and one whose id is
    an object with an own [toString]: the second is accepted only with an
    override. *)
Lemma constructor_accepts_any_truthy_id_witness :
  let id := JNumber false "42" in
  let object_id := JObject [("toString", JNumber false "1")] in
  let with_override :=
    inl (Example.settings (Some More.token_object_id) (Some "https://collector.example/") None) in
  (JSON_parse (Reference.base64_decode More.token_42) = Normal (JObject [("integrationId", id)]) ∧
   ToBoolean id = true ∧ ToString id = Normal "42") ∧
  (JSON_parse (Reference.base64_decode More.token_object_id)
     = Normal (JObject [("integrationId", object_id)]) ∧
   ToBoolean object_id = true ∧
   ∃ e, ToString object_id = Throw e) ∧
  fst (Catcher.constructor (inr More.token_42) fresh_world)
    = Normal (This.mk More.token_42 "https://42.k1.hawk.so/" None None) ∧
  Catcher.constructor (inr More.token_object_id) fresh_world
    = (Throw InvalidTokenError, fresh_world) ∧
  fst (Catcher.constructor with_override fresh_world)
    = Normal (This.mk More.token_object_id "https://collector.example/" None None).
Proof.
  intros id object_id with_override.
  assert (JSON_parse (Reference.base64_decode More.token_42)
          = Normal (JObject [("integrationId", id)])) as Hparse by (vm_compute; reflexivity).
  assert (JSON_parse (Reference.base64_decode More.token_object_id)
          = Normal (JObject [("integrationId", object_id)])) as Hparse'
    by (vm_compute; reflexivity).
  split; [split; [exact Hparse|split; reflexivity]|].
  split; [split; [exact Hparse'|split; [reflexivity|by eexists]]|].
  destruct (constructor_accepts_any_truthy_id (inr More.token_42) More.token_42
              (Reference.base64_decode More.token_42) (JObject [("integrationId", id)]) id
              fresh_world eq_refl ltac:(discriminate) eq_refl Hparse eq_refl eq_refl)
    as (_ & Hrendered & _).
  destruct (Hrendered eq_refl "42" eq_refl) as [Hnumber _].
  destruct (constructor_accepts_any_truthy_id (inr More.token_object_id) More.token_object_id
              (Reference.base64_decode More.token_object_id)
              (JObject [("integrationId", object_id)]) object_id
              fresh_world eq_refl ltac:(discriminate) eq_refl Hparse' eq_refl eq_refl)
    as (_ & _ & Hthrows).
  destruct (constructor_accepts_any_truthy_id with_override More.token_object_id
              (Reference.base64_decode More.token_object_id)
              (JObject [("integrationId", object_id)]) object_id
              fresh_world eq_refl ltac:(discriminate) eq_refl Hparse' eq_refl eq_refl)
    as (Hoverride & _ & _).
  destruct (Hoverride "https://collector.example/" eq_refl ltac:(discriminate))
    as [Hoverridden _].
  split; [by rewrite Hnumber|].
  split; [exact (Hthrows eq_refl _ eq_refl)|].
  by rewrite Hoverridden.
Defined.

(** An [init] with global handling on, then one that switches it off. *)
Lemma handler_outlives_reinit_witness :
  let settings2 := inl (More.settings_without_global_handling Example.token_prj9) in
  valid_token Example.token_abc "abc" ∧ valid_token Example.token_prj9 "prj-9" ∧
  globalHandlingEnabled (inr Example.token_abc) = true ∧
  globalHandlingEnabled settings2 = false ∧
  ∃ w1 w2 w3,
    HawkCatcher.init (inr Example.token_abc) fresh_world = (Normal (), w1) ∧
    HawkCatcher.init settings2 w1 = (Normal (), w2) ∧
    _instance w2 = Some (This.mk Example.token_prj9 "https://prj-9.k1.hawk.so/" None None) ∧
    jsExceptionHandler w2 =
      Some (mkHandler (This.mk Example.token_abc "https://abc.k1.hawk.so/" None None) true) ∧
    uncaught_exception Example.type_error false w2 = (Normal (), w3) ∧
    fetched w3 = [{|
      url := "https://abc.k1.hawk.so/";
      method := "POST";
      headers := [("Content-Type", "application/json")];
      body := JSON_stringify
                (HawkEvent.mk Example.token_abc "errors/react-native"
                   (EventData.mk "TypeError" None None None None None));
    |}].
Proof.
  intros settings2.
  assert (valid_token Example.token_abc "abc") as Hv1 by valid_abc.
  assert (valid_token Example.token_prj9 "prj-9") as Hv2 by valid_prj9.
  split; [exact Hv1|]. split; [exact Hv2|]. split; [reflexivity|]. split; [reflexivity|].
  apply (handler_outlives_reinit (inr Example.token_abc) settings2
           Example.token_abc "abc" Example.token_prj9 "prj-9" fresh_world
           Example.type_error false eq_refl Hv1 eq_refl eq_refl Hv2 eq_refl).
Defined.

(** [{b:1}] merged with [{"1":2}]: the array index is listed first. *)
Lemma getContext_key_order_witness :
  let this := This.mk Example.token_abc "https://abc.k1.hawk.so/" (Some 0) None in
  allocated More.index_store (Some 0) ∧ allocated More.index_store (Some 1) ∧
  unique_keys More.b1 ∧ unique_keys More.index1 ∧
  ∃ contextMerged w',
    Catcher.getContext this (Some 1) More.index_store = (Normal contextMerged, w') ∧
    keys (properties (heap w') contextMerged) = ["1"; "b"] ∧
    unique_keys (properties (heap w') contextMerged) ∧
    js_ordered (properties (heap w') contextMerged) ∧
    filter ordinary_key (keys (properties (heap w') contextMerged)) = ["b"].
Proof.
  intros this.
  assert (allocated More.index_store (Some 0)) as H0 by (simpl; lia).
  assert (allocated More.index_store (Some 1)) as H1 by (simpl; lia).
  assert (unique_keys More.b1) as Hd
    by (apply (bool_decide_unpack _); vm_compute; exact I).
  assert (unique_keys More.index1) as Hc
    by (apply (bool_decide_unpack _); vm_compute; exact I).
  split; [exact H0|]. split; [exact H1|]. split; [exact Hd|]. split; [exact Hc|].
  destruct (getContext_key_order this (Some 1) More.index_store H0 H1 Hd Hc)
    as (l & w' & Hrun & Hu & Ho & _ & _ & Hordinary).
  exists l, w'. split; [exact Hrun|].
  split; [|split; [exact Hu|split; [exact Ho|exact Hordinary]]].
  vm_compute in Hrun. injection Hrun as <- <-. reflexivity.
Defined.

(** [{x:1}] merged with [{b:3,c:4}]: one listing continues the other. *)
Lemma getContext_concatenates_disjoint_contexts_witness :
  let this := This.mk Example.token_abc "https://abc.k1.hawk.so/" (Some 0) None in
  allocated More.store (Some 0) ∧ allocated More.store (Some 1) ∧
  unique_keys (More.x1 ++ Example.b3_c4) ∧ js_ordered (More.x1 ++ Example.b3_c4) ∧
  ("__proto__" ∉ keys (More.x1 ++ Example.b3_c4)) ∧
  ∃ contextMerged w',
    Catcher.getContext this (Some 1) More.store = (Normal contextMerged, w') ∧
    properties (heap w') contextMerged
      = [("x", Example.one); ("b", Example.three); ("c", Example.four)].
Proof.
  intros this.
  assert (allocated More.store (Some 0)) as H0 by (simpl; lia).
  assert (allocated More.store (Some 1)) as H1 by (simpl; lia).
  assert (unique_keys (More.x1 ++ Example.b3_c4)) as Hu
    by (apply (bool_decide_unpack _); vm_compute; exact I).
  assert (js_ordered (More.x1 ++ Example.b3_c4)) as Ho
    by (repeat constructor).
  assert ("__proto__" ∉ keys (More.x1 ++ Example.b3_c4)) as Hp
    by (apply (bool_decide_unpack _); vm_compute; exact I).
  split; [exact H0|]. split; [exact H1|]. split; [exact Hu|]. split; [exact Ho|].
  split; [exact Hp|].
  destruct (getContext_concatenates_disjoint_contexts this (Some 1) More.store
              H0 H1 Hu Ho Hp) as (l & w' & Hrun & Hprops & _).
  exists l, w'. split; [exact Hrun|exact Hprops].
Defined.

(** A send with both example contexts: one object more on the store. *)
Lemma send_only_allocates_witness :
  let this := This.mk Example.token_abc "https://abc.k1.hawk.so/" (Some 0)
                (Some Example.failing_hook) in
  allocated Example.store (Some 0) ∧ allocated Example.store (Some 1) ∧
  heap (snd (Catcher.send this Example.type_error (Some 1) None Example.store)) =
    [Example.a1_b2; Example.b3_c4;
     [("a", Example.one); ("b", Example.three); ("c", Example.four)]] ∧
  ∀ later, allocated Example.store later →
    merged_context this later
      (snd (Catcher.send this Example.type_error (Some 1) None Example.store)) =
    merged_context this later Example.store.
Proof.
  intros this.
  assert (allocated Example.store (Some 0)) as H0 by (simpl; lia).
  assert (allocated Example.store (Some 1)) as H1 by (simpl; lia).
  split; [exact H0|]. split; [exact H1|].
  apply (send_only_allocates this Example.type_error (Some 1) None Example.store H0 H1).
Defined.

(** Three facade sends, the second one twice the same error, on an
    instance with the redacting hook. *)
Lemma facade_sends_requests_witness :
  let this := This.mk Example.token_abc "https://abc.k1.hawk.so/" (Some 0)
                (Some Example.redact) in
  let w := with_instance (Some this) Example.store in
  let calls := [mkSendCall Example.type_error (Some 1) None;
                mkSendCall Example.type_error (Some 1) None;
                mkSendCall (new_Error "again") None None] in
  _instance w = Some this ∧ allocated w (This.context this) ∧
  Forall (λ c, allocated w (call_context c)) calls ∧
  never_throws (This.beforeSend this) ∧
  fetched (facade_sends calls w) = flat_map (requests_of_call this w) calls ∧
  length (fetched (facade_sends calls w)) = 3.
Proof.
  intros this w calls.
  assert (allocated w (This.context this)) as Hd by (simpl; lia).
  assert (Forall (λ c, allocated w (call_context c)) calls) as Hcalls.
  { repeat apply Forall_cons_2; [simpl; lia | simpl; lia | exact I | apply Forall_nil_2]. }
  assert (never_throws (This.beforeSend this)) as Hhook.
  { intros payload. eexists. reflexivity. }
  split; [reflexivity|]. split; [exact Hd|]. split; [exact Hcalls|]. split; [exact Hhook|].
  destruct (facade_sends_requests this calls w eq_refl Hd Hcalls) as [Hreq Hcount].
  split; [exact Hreq | exact (Hcount Hhook)].
Defined.

(** A send through the facade on an instance whose hook throws. *)
Lemma send_rethrows_hook_error_witness :
  let this := This.mk Example.token_abc "https://abc.k1.hawk.so/" None
                (Some Example.failing_hook) in
  let w := with_instance (Some this) fresh_world in
  Example.failing_hook
    (Catcher.composed Example.type_error None (merged_context this None w))
    = Throw (new_Error "beforeSend failed") ∧
  ∃ w',
    Catcher.send this Example.type_error None None w
      = (Throw (new_Error "beforeSend failed"), w') ∧
    HawkCatcher.send Example.type_error None None w
      = (Throw (new_Error "beforeSend failed"), w') ∧
    fetched w' = [] ∧ console w' = [].
Proof.
  intros this w.
  destruct (send_rethrows_hook_error this Example.failing_hook Example.type_error None None w
              (new_Error "beforeSend failed") eq_refl eq_refl)
    as (w' & Hsend & Hfacade & Hfetched & Hconsole & _).
  split; [reflexivity|]. exists w'.
  split; [exact Hsend|]. split; [exact (Hfacade eq_refl)|].
  split; [exact Hfetched | exact Hconsole].
Defined.

(** [test] on an instance with [{a:1,b:2}] as default context and no
    hook, on the reference host. *)
Lemma test_sends_default_context_witness :
  let this := This.mk Example.token_abc "https://abc.k1.hawk.so/" (Some 0) None in
  allocated Example.store (Some 0) ∧ unique_keys Example.a1_b2 ∧
  js_ordered Example.a1_b2 ∧ ("__proto__" ∉ keys Example.a1_b2) ∧
  Catcher.test this Example.store =
    (Normal (),
     with_fetched
       [request_for this
          (EventData.mk "Hawk NodeJS Catcher test message" (Some "Error")
             (Some (getBacktrace (new_Error "Hawk NodeJS Catcher test message"))) None
             (Some Example.a1_b2) (Some "1.0.0"))]
       (with_heap [Example.a1_b2; Example.b3_c4; Example.a1_b2] fresh_world)).
Proof.
  intros this.
  assert (allocated Example.store (Some 0)) as H0 by (simpl; lia).
  assert (unique_keys Example.a1_b2) as Hd
    by (apply (bool_decide_unpack _); vm_compute; exact I).
  assert (js_ordered Example.a1_b2) as Ho by (repeat constructor).
  assert ("__proto__" ∉ keys Example.a1_b2) as Hp
    by (apply (bool_decide_unpack _); vm_compute; exact I).
  split; [exact H0|]. split; [exact Hd|]. split; [exact Ho|]. split; [exact Hp|].
  rewrite (test_sends_default_context this Example.store H0 Hd Ho Hp).
  vm_compute. reflexivity.
Defined.
